(** * quick-dash-engine: a shallow embedding of the dashboard engine and of
    the variable parser, with the properties of its specification.

    Sources embedded here:
    - [src/core/quick-dash-engine.ts]  (class [QuickDashEngine])
    - [src/core/quick-dash-parser.ts]  (class [QuickDashParser])

    Modelling conventions.
    - A plain JavaScript object used as a dictionary is given by its own
      properties: an association list in insertion order where the code
      iterates over it, a [gmap] where it only reads and writes by key.  Its
      prototype is [Object.prototype]: a read [o[k]] and a test [k in o]
      that find no own property go on to the members of the prototype
      ([Obj.inherited]), [Object.entries] lists the keys that are array
      indices first ([Obj.entries]), and an assignment to the key
      [__proto__] calls the setter of the prototype instead of creating a
      property.
    - An object that the code receives and iterates over (the query map
      handed to the batcher, the queries of a template) is given by its
      [Object.entries] array.
    - [number] is an abstract type [num]: the engine stores and forwards
      numbers and never computes with them itself.
    - A rejected promise and a thrown exception are explicit results.
    - Every [while] loop takes a fuel argument bounding its iterations;
      running out of fuel for every amount of fuel is divergence. *)

From Stdlib Require Import ZArith Ascii String.
From stdpp Require Import base option list strings gmap sorting.

Open Scope string_scope.
Open Scope list_scope.
Open Scope nat_scope.

(** ** Plain objects *)

Module Obj.

(** The names of the members of [Object.prototype]: the methods, and the
    accessor [__proto__]. *)
Definition prototypeMembers : list string :=
  ["constructor"; "__defineGetter__"; "__defineSetter__"; "hasOwnProperty";
   "__lookupGetter__"; "__lookupSetter__"; "isPrototypeOf";
   "propertyIsEnumerable"; "toString"; "valueOf"; "__proto__";
   "toLocaleString"].

(** [k in {}]: a plain object inherits [k] from its prototype. *)
Definition inherited (k : string) : bool :=
  bool_decide (k ∈ prototypeMembers).

(** The own property [k] of an object given by its own properties. *)
Fixpoint get {V : Type} (o : list (string * V)) (k : string) : option V :=
  match o with
  | [] => None
  | (k', v) :: o' => if decide (k' = k) then Some v else get o' k
  end.

(** [o[k] = v]: an existing key keeps its position, a new key goes last. *)
Fixpoint set {V : Type} (o : list (string * V)) (k : string) (v : V)
  : list (string * V) :=
  match o with
  | [] => [(k, v)]
  | (k', v') :: o' =>
      if decide (k' = k) then (k, v) :: o' else (k', v') :: set o' k v
  end.

Definition keys {V : Type} (o : list (string * V)) : list string := o.*1.

(** The truthiness of [o[k]] for an object whose own values are strings: an
    own value is truthy unless it is the empty string; a key that the
    object does not own is read from [Object.prototype], whose members are
    functions and, at [__proto__], the prototype itself, all truthy. *)
Definition truthyAt (o : list (string * string)) (k : string) : bool :=
  match get o k with
  | Some s => negb (String.eqb s "")
  | None => inherited k
  end.

(** The value of a decimal digit. *)
Definition digit (c : ascii) : option N :=
  let n := N_of_ascii c in
  if ((48 <=? n) && (n <=? 57))%N then Some (n - 48)%N else None.

Fixpoint number (acc : N) (s : string) : option N :=
  match s with
  | EmptyString => Some acc
  | String c s' => d ← digit c ; number (10 * acc + d)%N s'
  end.

(** A key that is an array index: the canonical decimal numeral of an
    integer from 0 to 2^32 - 2. *)
Definition arrayIndex (k : string) : option N :=
  match k with
  | EmptyString => None
  | String c s' =>
      if Ascii.eqb c "0" && negb (String.eqb s' "") then None
      else n ← number 0 k ; if (n <? 4294967295)%N then Some n else None
  end.

Fixpoint insertIndexed {V : Type} (e : N * (string * V))
    (l : list (N * (string * V))) : list (N * (string * V)) :=
  match l with
  | [] => [e]
  | e' :: l' =>
      if (e.1 <=? e'.1)%N then e :: l else e' :: insertIndexed e l'
  end.

(** The own properties whose key is an array index, by ascending index. *)
Definition indexed {V : Type} (o : list (string * V))
  : list (N * (string * V)) :=
  foldr insertIndexed []
        (omap (λ e : string * V, n ← arrayIndex e.1 ; Some (n, e)) o).

(** The own properties whose key is not an array index, in insertion
    order. *)
Definition named {V : Type} (o : list (string * V)) : list (string * V) :=
  filter (λ e, arrayIndex e.1 = None) o.

(** [Object.entries(o)]: the array indices in ascending order, then the
    other keys in the order in which they were created. *)
Definition entries {V : Type} (o : list (string * V)) : list (string * V) :=
  (indexed o).*2 ++ named o.

End Obj.

(** ** Data model *)

(** Modelled from the spec: [types/query-map.ts] is not among the sources;
    a QueryMap maps an identifier to its raw query text. *)
Definition QueryMap : Type := list (string * string).

(** Modelled from the spec: [types/metrics-to-compute.ts] is not among the
    sources; a metric has an identifier, an expression and an ordered list
    of dependency identifiers. *)
Record MetricsToCompute : Type := mkMetric {
  id : string;
  expression : string;
  dependencies : list string
}.

(** Modelled from the spec: [types/panel.ts] is not among the sources; a
    panel has a title and an ordered list of metrics. *)
Record Panel : Type := mkPanel {
  title : string;
  metrics : list MetricsToCompute
}.

(** [types/dashboard-config.ts]. *)
Record DashboardConfig : Type := mkDashboard {
  queries : QueryMap;
  variables : option (list string);
  panels : list Panel
}.

(** ** Results of computations that may throw or loop *)

Inductive outcome (A : Type) : Type :=
| Done (a : A)
| Threw (message : string)
| OutOfFuel.
Arguments Done {A} a.
Arguments Threw {A} message.
Arguments OutOfFuel {A}.

#[global] Instance outcome_bind : MBind outcome := λ A B k m,
  match m with
  | Done a => k a
  | Threw e => Threw e
  | OutOfFuel => OutOfFuel
  end.

(** * The engine *)

Module Engine.
Section engine.

Context {num : Type}.

(** What a promise returned by [executeQuery] settles to. *)
Inductive settled : Type :=
| fulfilled (value : num)
| rejected (reason : string).

(** [{ id, value }] as the batcher yields it: the value is what the
    promise of the query was fulfilled with. *)
Definition QueryResult : Type := string * num.

(** What the [value] of a result of [processCalculations] can be: it is
    read back from [calculatedValues], and that read gives a number, or, at
    the identifier [__proto__], the object [Object.prototype]. *)
Inductive Value : Type :=
| Number (n : num)
| ObjectPrototype.

(** [{ id, value }] as [processCalculations] yields it. *)
Definition MetricResult : Type := string * Value.

(** [{ panel, results }] *)
Definition DashboardResult : Type := string * list MetricResult.

(** What [processPanelResults] can yield: a panel result, or, from
    [panelCache[panel.title]] at a title that names a member of
    [Object.prototype], that member. *)
Inductive Yielded : Type :=
| Result (r : DashboardResult)
| Member (name : string).

(** The title of the panel that a yield of [processPanelResults] was made
    for. *)
Definition yieldTitle (y : Yielded) : string :=
  match y with
  | Result r => r.1
  | Member name => name
  end.

(** The constructor's arguments, and [mathjs]'s [evaluate], which is
    outside the repository.
    - [executeQuery] returns a promise, as its type says (it does not throw
      before it does); what the promise settles to depends on the query
      text only.
    - [maxConcurrentQueries] is an integer.
    - [mathEvaluate expression scope] reads the scope and does not assign
      in it; [inr message] is a thrown error. *)
Variable executeQuery : string → settled.
Variable maxConcurrentQueries : Z.
Variable mathEvaluate : string → gmap string num → num + string.

(** The state one [executeDashboard] call works on: the own properties of
    the shared [calculatedValues] object, and three logs that record what
    the code does to the outside: the query texts handed to [executeQuery],
    the lines written with [console.error], and the identifiers of the
    assignments [calculatedValues[id] = value] that were executed, each in
    order of occurrence. *)
Record Store : Type := mkStore {
  calculatedValues : gmap string num;
  queryCalls : list string;
  consoleErrors : list string;
  assignments : list string
}.

Definition emptyStore : Store := mkStore ∅ [] [] [].

(** [calculatedValues[id] = value]: the assignment creates or updates the
    own property [id], except at [__proto__], where it calls the setter of
    [Object.prototype], which does nothing when given a number. *)
Definition assign (k : string) (v : num) (st : Store) : Store :=
  mkStore (if decide (k = "__proto__") then calculatedValues st
           else <[k := v]> (calculatedValues st))
          (queryCalls st) (consoleErrors st) (assignments st ++ [k]).

(** [calculatedValues[id]], read right after [calculatedValues[id] = value]:
    the number just stored, except at [__proto__], where the read calls the
    getter of [Object.prototype]. *)
Definition readBack (k : string) (v : num) : Value :=
  if decide (k = "__proto__") then ObjectPrototype else Number v.

Definition logCalls (qs : list string) (st : Store) : Store :=
  mkStore (calculatedValues st) (queryCalls st ++ qs)
          (consoleErrors st) (assignments st).

Definition logErrors (es : list string) (st : Store) : Store :=
  mkStore (calculatedValues st) (queryCalls st)
          (consoleErrors st ++ es) (assignments st).

(** *** processQueries *)

(** [Promise.allSettled(batch.map(([id, query]) => executeQuery(query)
    .then(value => ({ id, value }))))]: the result array is positional,
    one entry per element of [batch]. *)
Definition allSettled (batch : list (string * string))
  : list (string * settled) :=
  (λ '(id, query), (id, executeQuery query)) <$> batch.

(** The [for (const result of batchResults)] loop: what it yields ... *)
Definition yielded (batchResults : list (string * settled))
  : list QueryResult :=
  omap (λ '(id, r), match r with
                    | fulfilled v => Some (id, v)
                    | rejected _ => None
                    end) batchResults.

(** ... and what it writes to the console. *)
Definition reported (batchResults : list (string * settled))
  : list string :=
  omap (λ '(_, r), match r with
                   | fulfilled _ => None
                   | rejected reason =>
                       Some ("Erro ao executar query: " +:+ reason)
                   end) batchResults.

(** [queryEntries.splice(0, maxConcurrentQueries)]: the removed elements
    and what is left of the array.  A delete count below zero is zero. *)
Definition splice0 {A : Type} (count : Z) (l : list A) : list A * list A :=
  (take (Z.to_nat count) l, drop (Z.to_nat count) l).

(** The loop of [processQueries], on the array
    [queryEntries = Object.entries(queries)]. *)
Fixpoint processQueries (fuel : nat) (queryEntries : list (string * string))
    (st : Store) : outcome (list QueryResult * Store) :=
  match fuel with
  | O => OutOfFuel
  | S fuel' =>
      match queryEntries with
      | [] => Done ([], st)
      | _ :: _ =>
          let '(batch, queryEntries') :=
            splice0 maxConcurrentQueries queryEntries in
          let batchResults := allSettled batch in
          let st' := logErrors (reported batchResults)
                       (logCalls batch.*2 st) in
          '(ys, st'') ← processQueries fuel' queryEntries' st' ;
          Done (yielded batchResults ++ ys, st'')
      end
  end.

(** *** processCalculations *)

(** [calculatedValues.hasOwnProperty] is looked up like any other
    property: once the identifier [hasOwnProperty] has been assigned, it is
    that number and no longer the method of the prototype. *)
Definition shadowed (st : Store) : bool :=
  bool_decide (is_Some (calculatedValues st !! "hasOwnProperty")).

(** The message of the [TypeError] of a call of a number. *)
Definition notAFunction : string :=
  "TypeError: calculatedValues.hasOwnProperty is not a function".

(** [every] calls its callback on a non-empty array only, and the first
    call throws when the method is shadowed. *)
Definition throwsAt (st : Store) (m : MetricsToCompute) : bool :=
  bool_decide (dependencies m ≠ []) && shadowed st.

(** [dependencies.every((dep) => calculatedValues.hasOwnProperty(dep))],
    when it does not throw. *)
Definition eligible (st : Store) (m : MetricsToCompute) : bool :=
  forallb (λ dep, bool_decide (is_Some (calculatedValues st !! dep)))
          (dependencies m).

(** The [for (let i = pendingMetrics.length - 1; i >= 0; i--)] loop,
    entered with [i + 1 = n]: the yields of the sweep, the array after
    the [splice(i, 1)] calls, and the store.  The loop is entered with
    [n = pendingMetrics.length] and a [splice(i, 1)] leaves the elements
    below [i] in place, so the index is always in range. *)
Fixpoint sweep (n : nat) (pendingMetrics : list MetricsToCompute)
    (st : Store)
  : outcome (list MetricResult * list MetricsToCompute * Store) :=
  match n with
  | O => Done ([], pendingMetrics, st)
  | S i =>
      match pendingMetrics !! i with
      | None =>
          Threw "TypeError: Cannot destructure 'pendingMetrics[i]'"
      | Some m =>
          if throwsAt st m then Threw notAFunction
          else if eligible st m then
            match mathEvaluate (expression m) (calculatedValues st) with
            | inr message => Threw message
            | inl v =>
                '(ys, pending', st') ←
                  sweep i (delete i pendingMetrics) (assign (id m) v st) ;
                Done ((id m, readBack (id m) v) :: ys, pending', st')
            end
          else sweep i pendingMetrics st
      end
  end.

(** The [while (pendingMetrics.length > 0)] loop. *)
Fixpoint resolve (fuel : nat) (pendingMetrics : list MetricsToCompute)
    (st : Store) : outcome (list MetricResult * Store) :=
  match fuel with
  | O => OutOfFuel
  | S fuel' =>
      match pendingMetrics with
      | [] => Done ([], st)
      | _ :: _ =>
          '(ys, pending', st') ←
            sweep (length pendingMetrics) pendingMetrics st ;
          '(zs, st'') ← resolve fuel' pending' st' ;
          Done (ys ++ zs, st'')
      end
  end.

(** A query stream that has not been started: running it on a store gives
    everything it yields. *)
Definition Stream : Type := Store → outcome (list QueryResult * Store).

(** The body of [for await (const { id, value } of queryStream)], over
    everything the stream yields. *)
Definition storeResults (qs : list QueryResult) (st : Store) : Store :=
  foldl (λ s '(k, v), assign k v s) st qs.

Definition processCalculations (fuel : nat)
    (metricsToCompute : list MetricsToCompute) (queryStream : Stream)
    (st : Store) : outcome (list MetricResult * Store) :=
  '(qs, st1) ← queryStream st ;
  resolve fuel metricsToCompute (storeResults qs st1).

(** *** processPanelResults *)

(** The body of [metric.dependencies.forEach]:
    [if (queries[dependency] && !acc[dependency])
       acc[dependency] = queries[dependency]].
    Both reads go through the prototype.  When [queries] does not own
    [dependency] and the first read is truthy, it found a member of
    [Object.prototype], and the second read finds the same member: the
    assignment is then not reached from an accumulator without an empty
    query text, and no accumulator built here has one. *)
Definition addDependency (queries acc : QueryMap) (dependency : string)
  : QueryMap :=
  if Obj.truthyAt queries dependency && negb (Obj.truthyAt acc dependency)
  then match Obj.get queries dependency with
       | Some query => Obj.set acc dependency query
       | None => acc
       end
  else acc.

(** [panel.metrics.reduce((acc, metric) => { ... ; return acc }, {})] *)
Definition relevantQueries (queries : QueryMap)
    (metrics : list MetricsToCompute) : QueryMap :=
  foldl (λ acc metric, foldl (addDependency queries) acc
                             (dependencies metric))
        [] metrics.

(** [panelCache[title]], when it is truthy: an own property is a panel
    result, an object; a title that the cache does not own is read from
    [Object.prototype]. *)
Definition cacheRead (panelCache : gmap string DashboardResult)
    (title : string) : option Yielded :=
  match panelCache !! title with
  | Some cached => Some (Result cached)
  | None => if Obj.inherited title then Some (Member title) else None
  end.

(** [panelCache[title] = panelResult]: at [__proto__] the assignment
    replaces the prototype of the cache and creates no property.  The
    cache is read when [useStream] is true only, and the assignment is then
    not reached at that title, so the replaced prototype is never read. *)
Definition cacheWrite (panelCache : gmap string DashboardResult)
    (title : string) (panelResult : DashboardResult)
  : gmap string DashboardResult :=
  if decide (title = "__proto__") then panelCache
  else <[title := panelResult]> panelCache.

(** The body of [for (const panel of panels)]: what is yielded, with the
    cache and the store after it. *)
Definition processPanel (fuel : nat) (queries : QueryMap) (useStream : bool)
    (panel : Panel) (panelCache : gmap string DashboardResult) (st : Store)
  : outcome (Yielded * gmap string DashboardResult * Store) :=
  match (if useStream then cacheRead panelCache (title panel) else None) with
  | Some cached => Done (cached, panelCache, st)
  | None =>
      let queryStream :=
        processQueries fuel
          (Obj.entries (relevantQueries queries (metrics panel))) in
      '(results, st') ←
        processCalculations fuel (metrics panel) queryStream st ;
      let panelResult := (title panel, results) in
      Done (Result panelResult,
            cacheWrite panelCache (title panel) panelResult, st')
  end.

(** The generator object of [processPanelResults]: the panels it has not
    visited yet, its arguments, and its two local objects. *)
Record PanelStream : Type := mkStream {
  remaining : list Panel;
  streamQueries : QueryMap;
  streamFlag : bool;
  panelCache : gmap string DashboardResult;
  store : Store
}.

(** Calling the generator function runs nothing yet. *)
Definition processPanelResults (panels : list Panel) (queries : QueryMap)
    (useStream : bool) : PanelStream :=
  mkStream panels queries useStream ∅ emptyStore.

(** One [next()] on the generator: [None] when it is done. *)
Definition next (fuel : nat) (g : PanelStream)
  : outcome (option Yielded * PanelStream) :=
  match remaining g with
  | [] => Done (None, g)
  | panel :: rest =>
      '(r, cache', st') ←
        processPanel fuel (streamQueries g) (streamFlag g) panel
                     (panelCache g) (store g) ;
      Done (Some r, mkStream rest (streamQueries g) (streamFlag g)
                             cache' st')
  end.

(** [for await (const result of g) panelResults.push(result)], with a
    bound [n] on the number of [next()] calls. *)
Fixpoint drainN (n : nat) (fuel : nat) (g : PanelStream)
  : outcome (list Yielded * PanelStream) :=
  match n with
  | O => OutOfFuel
  | S n' =>
      '(r, g') ← next fuel g ;
      match r with
      | None => Done ([], g')
      | Some result =>
          '(panelResults, g'') ← drainN n' fuel g' ;
          Done (result :: panelResults, g'')
      end
  end.

(** A generator over [k] panels is done at the [k+1]-th [next()]. *)
Definition drain (fuel : nat) (g : PanelStream)
  : outcome (list Yielded * PanelStream) :=
  drainN (S (length (remaining g))) fuel g.

(** *** executeDashboard *)

Inductive Returned : Type :=
| Materialized (panelResults : list Yielded)
| Generator (g : PanelStream).

Definition executeDashboard (fuel : nat) (dashboard : DashboardConfig)
    (useStream : bool) : outcome Returned :=
  if useStream then
    Done (Generator (processPanelResults (panels dashboard)
                                         (queries dashboard) useStream))
  else
    '(panelResults, _) ←
      drain fuel (processPanelResults (panels dashboard)
                                      (queries dashboard) useStream) ;
    Done (Materialized panelResults).

End engine.

Arguments settled : clear implicits.
Arguments Value : clear implicits.
Arguments Yielded : clear implicits.
Arguments Store : clear implicits.
Arguments PanelStream : clear implicits.
Arguments Returned : clear implicits.

End Engine.

(** * The parser *)

Module Parser.

(** What [exec] and a throwing callback give back. *)
Inductive attempt (A : Type) : Type :=
| Ok (a : A)
| Raise (message : string).
Arguments Ok {A} a.
Arguments Raise {A} message.

#[global] Instance attempt_bind : MBind attempt := λ A B k m,
  match m with
  | Ok a => k a
  | Raise e => Raise e
  end.

(** [\w], without the [u] flag: an ASCII letter, digit or underscore. *)
Definition isWord (c : ascii) : bool :=
  let n := N_of_ascii c in
  ((48 <=? n) && (n <=? 57) || (65 <=? n) && (n <=? 90)
   || (97 <=? n) && (n <=? 122) || (n =? 95))%N.

(** The longest prefix of word characters, and what follows it. *)
Fixpoint wordPrefix (s : string) : string * string :=
  match s with
  | EmptyString => ("", "")
  | String c s' =>
      if isWord c then
        let '(w, r) := wordPrefix s' in (String c w, r)
      else ("", s)
  end.

(** A match of [/\{\{(\w+)\}\}/] that starts at the first character
    of [s]: the captured key.  [\w+] is greedy and a brace is not a word
    character, so the key is the whole run of word characters. *)
Definition matchToken (s : string) : option string :=
  match s with
  | String "{" (String "{" s1) =>
      match wordPrefix s1 with
      | (String c w, String "}" (String "}" _)) => Some (String c w)
      | _ => None
      end
  | _ => None
  end.

(** What a global regular-expression replace sees of a string: the
    characters outside any match, and the matches. *)
Inductive piece : Type :=
| Text (c : ascii)
| Token (key : string).

(** The scan of [String.prototype.replace] with the [g] flag, left to
    right; [skip] is the number of coming characters that belong to the
    match found last, which the scan does not look at again. *)
Fixpoint scan (skip : nat) (s : string) : list piece :=
  match s with
  | EmptyString => []
  | String c s' =>
      match skip with
      | S skip' => scan skip' s'
      | O =>
          match matchToken s with
          | Some key => Token key :: scan (String.length key + 3) s'
          | None => Text c :: scan 0 s'
          end
      end
  end.

Definition tokens (s : string) : list string :=
  omap (λ p, match p with Token key => Some key | Text _ => None end)
       (scan 0 s).

(** [template.variables], under a name that the [variables] argument of
    the functions below does not hide. *)
Definition declaredVariables (template : DashboardConfig)
  : option (list string) := variables template.

Section parser.

(** Modelled from the spec: [types/variables.ts] is not among the
    sources; Variables map a name to a stringifiable value.  The mapping
    is a plain object, given by its own properties: a name bound to [None]
    is a key whose value is [undefined].  [toString] is JavaScript's
    [String(...)] on a value other than [undefined], and [memberText name]
    is what [String(...)] gives for the member [name] of
    [Object.prototype], a text that depends on the JavaScript engine. *)
Context {value : Type}.
Variable toString : value → string.
Variable memberText : string → string.

(** [name in variables] *)
Definition has (variables : gmap string (option value)) (name : string)
  : bool :=
  bool_decide (is_Some (variables !! name)) || Obj.inherited name.

(** The replacer callback of [replaceVariables]: [variables[key]] is
    [undefined] for a key bound to [undefined], and for a key that neither
    the mapping nor its prototype has. *)
Definition replacer (variables : gmap string (option value)) (key : string)
  : attempt string :=
  match variables !! key with
  | Some (Some v) => Ok (toString v)
  | Some None => Raise ("Missing required variable: " +:+ key)
  | None =>
      if Obj.inherited key then Ok (memberText key)
      else Raise ("Missing required variable: " +:+ key)
  end.

Fixpoint replacePieces (variables : gmap string (option value))
    (ps : list piece)
  : attempt string :=
  match ps with
  | [] => Ok ""
  | Text c :: ps' =>
      r ← replacePieces variables ps' ; Ok (String c r)
  | Token key :: ps' =>
      v ← replacer variables key ;
      r ← replacePieces variables ps' ;
      Ok (v +:+ r)
  end.

Definition replaceVariables (template : string)
    (variables : gmap string (option value)) : attempt string :=
  replacePieces variables (scan 0 template).

(** [array.map(f)] with a callback that may throw: the first exception
    ends the traversal. *)
Fixpoint mapA {A B : Type} (f : A → attempt B) (l : list A)
  : attempt (list B) :=
  match l with
  | [] => Ok []
  | x :: l' => y ← f x ; ys ← mapA f l' ; Ok (y :: ys)
  end.

Definition parseMetric (variables : gmap string (option value))
    (metric : MetricsToCompute) : attempt MetricsToCompute :=
  e ← replaceVariables (expression metric) variables ;
  Ok (mkMetric (id metric) e (dependencies metric)).

Definition parsePanel (variables : gmap string (option value))
    (panel : Panel) : attempt Panel :=
  ms ← mapA (parseMetric variables) (metrics panel) ;
  Ok (mkPanel (title panel) ms).

(** [template.variables.filter((value) => !(value in variables))] *)
Definition missingVars (template : DashboardConfig)
    (variables : gmap string (option value)) : list string :=
  match declaredVariables template with
  | Some declared => filter (λ name, has variables name = false) declared
  | None => []
  end.

Definition exec (template : DashboardConfig)
    (variables : gmap string (option value)) : attempt DashboardConfig :=
  if bool_decide (0 < length (missingVars template variables)) then
    Raise ("Missing required variables: "
           +:+ String.concat ", " (missingVars template variables))
  else
    parsedQueries ←
      mapA (λ '(key, query),
              q ← replaceVariables query variables ; Ok (key, q))
           (queries template) ;
    parsedPanels ← mapA (parsePanel variables) (panels template) ;
    Ok (mkDashboard parsedQueries (declaredVariables template) parsedPanels).

End parser.

(** The strings [exec] substitutes in, in the order it visits them: the
    query texts, then the expressions of the metrics, panel by panel. *)
Definition templateStrings (template : DashboardConfig) : list string :=
  (queries template).*2
  ++ (panels template ≫= λ panel, expression <$> metrics panel).

(** The names of all tokens of a template, in that order. *)
Definition templateTokens (template : DashboardConfig) : list string :=
  templateStrings template ≫= tokens.

(** The declared names that are not keys of the variables. *)
Definition absent {value : Type} (variables : gmap string (option value))
    (template : DashboardConfig) : list string :=
  filter (λ name, variables !! name = None)
         (default [] (declaredVariables template)).

(** [variables[key] === undefined] *)
Definition undefinedAt {value : Type}
    (variables : gmap string (option value)) (key : string) : bool :=
  match variables !! key with
  | Some (Some _) => false
  | Some None => true
  | None => negb (Obj.inherited key)
  end.

(** The first name of a list for which the variables have no value. *)
Definition firstMissing {value : Type}
    (variables : gmap string (option value)) (names : list string)
  : option string :=
  head (filter (λ name, undefinedAt variables name = true) names).

(** [follows variables names r]: the computation [r] raises the error of
    the first of [names] that has no value, and returns when all have. *)
Definition follows {value B : Type} (variables : gmap string (option value))
    (names : list string) (r : attempt B) : Prop :=
  match firstMissing variables names with
  | Some name => r = Raise ("Missing required variable: " +:+ name)
  | None => ∃ y, r = Ok y
  end.

(** The text of a piece as it stands in a template. *)
Definition pieceText (p : piece) : string :=
  match p with
  | Text c => String c ""
  | Token key => "{{" +:+ key +:+ "}}"
  end.

(** The template that a list of pieces was scanned from. *)
Definition render (ps : list piece) : string :=
  foldr (λ p r, pieceText p +:+ r) "" ps.

(** A string of word characters only. *)
Fixpoint wordString (s : string) : bool :=
  match s with
  | EmptyString => true
  | String c s' => isWord c && wordString s'
  end.

(** What [exec] leaves as it is: the keys of the queries, the declared
    variables, and for every panel its title and the identifier and
    dependencies of each metric. *)
Definition shape (config : DashboardConfig)
  : list string * option (list string)
    * list (string * list (string * list string)) :=
  ((queries config).*1, variables config,
   (λ panel, (title panel,
              (λ metric, (id metric, dependencies metric))
                <$> metrics panel)) <$> panels config).

End Parser.

(** * The earlier revision of the engine and of the parser

    [src/core/quick-dash-parser.ts] also holds, after the current parser,
    the revision of both classes that works on a flat list of widgets
    instead of panels (lines 74 to 235). *)

Module Legacy.

(** Modelled from the spec: [types/widget.ts] is not among the sources; the
    code reads the [id], the [expression] and the [dependencies] of a
    widget, which are the fields of a metric. *)
Definition Widget : Type := MetricsToCompute.

(** [types/dashboard-template.ts]. *)
Record DashboardTemplate : Type := mkTemplate {
  queries : QueryMap;
  widgets : list Widget;
  variables : option (list string)
}.

Section engine.

Context {num : Type}.
Variable executeQuery : string → Engine.settled num.
Variable maxConcurrentQueries : Z.
Variable mathEvaluate : string → gmap string num → num + string.

(** [processCalculations(widgets, queryStream)], drained: its
    [calculatedValues] object is its own, it yields every result of the
    query stream as it stores it, and then resolves the widgets with the
    loop of the current revision. *)
Definition processCalculations (fuel : nat) (widgets : list Widget)
    (queryStream : @Engine.Stream num)
  : outcome (list (@Engine.MetricResult num) * Engine.Store num) :=
  '(qs, st1) ← queryStream Engine.emptyStore ;
  '(ys, st2) ←
    Engine.resolve mathEvaluate fuel widgets (Engine.storeResults qs st1) ;
  Done (((λ '(k, v), (k, Engine.Number v)) <$> qs) ++ ys, st2).

(** Everything the stream that [executeDashboard] builds yields. *)
Definition calculationStream (fuel : nat) (dashboard : DashboardTemplate)
  : outcome (list (@Engine.MetricResult num) * Engine.Store num) :=
  processCalculations fuel (widgets dashboard)
    (Engine.processQueries executeQuery maxConcurrentQueries fuel
       (queries dashboard)).

(** [results[id] = value]: at [__proto__] the setter of [Object.prototype]
    is called, which creates no property; given a number it does nothing,
    and given [Object.prototype] it leaves the prototype what it is. *)
Definition record (results : gmap string (Engine.Value num))
    (item : @Engine.MetricResult num) : gmap string (Engine.Value num) :=
  if decide (item.1 = "__proto__") then results
  else <[item.1 := item.2]> results.

(** [executeDashboard(dashboard)] with [useStream] false: the own
    properties of the object [results] after [results[id] = value] for
    everything yielded. *)
Definition executeDashboard (fuel : nat) (dashboard : DashboardTemplate)
  : outcome (gmap string (Engine.Value num)) :=
  '(items, _) ← calculationStream fuel dashboard ;
  Done (foldl record ∅ items).

End engine.

Section parser.

Context {value : Type}.
Variable toString : value → string.
Variable memberText : string → string.

Definition missingVars (template : DashboardTemplate)
    (vars : gmap string (option value)) : list string :=
  match variables template with
  | Some declared => filter (λ name, Parser.has vars name = false) declared
  | None => []
  end.

(** [QuickDashParser.exec] of the earlier revision: the data it returns
    has the queries and the widgets only. *)
Definition exec (template : DashboardTemplate)
    (vars : gmap string (option value))
  : Parser.attempt DashboardTemplate :=
  if bool_decide (0 < length (missingVars template vars)) then
    Parser.Raise ("Missing required variables: "
                  +:+ String.concat ", " (missingVars template vars))
  else
    parsedQueries ←
      Parser.mapA (λ '(key, query),
                     q ← Parser.replaceVariables toString memberText query
                           vars ;
                     Parser.Ok (key, q))
                  (queries template) ;
    parsedWidgets ←
      Parser.mapA (Parser.parseMetric toString memberText vars)
                  (widgets template) ;
    Parser.Ok (mkTemplate parsedQueries parsedWidgets None).

End parser.

End Legacy.

(** * Test doubles

    A query executor and an expression evaluator over [Z] for the concrete
    runs below.  [sumEvaluate] stands in for [mathjs] on expressions that
    are sums of identifiers, such as ["a + b"]. *)

Module Fixture.

Definition isSeparator (c : ascii) : bool :=
  bool_decide (c = " "%char ∨ c = "+"%char).

(** The identifiers of a sum, left to right. *)
Fixpoint names (acc : string) (s : string) : list string :=
  match s with
  | EmptyString => if decide (acc = "") then [] else [acc]
  | String c s' =>
      if isSeparator c then
        if decide (acc = "") then names "" s' else acc :: names "" s'
      else names (acc +:+ String c "") s'
  end.

Fixpoint total (vals : gmap string Z) (ns : list string) : Z + string :=
  match ns with
  | [] => inl 0%Z
  | n :: ns' =>
      match vals !! n with
      | None => inr ("Undefined symbol " +:+ n)
      | Some v =>
          match total vals ns' with
          | inl t => inl (v + t)%Z
          | inr e => inr e
          end
      end
  end.

Definition sumEvaluate (e : string) (vals : gmap string Z) : Z + string :=
  total vals (names "" e).

(** The executor of the end-to-end example: query [qa] returns 1, query
    [qb] returns 2, and any other query fails. *)
Definition executeQuery (q : string) : Engine.settled Z :=
  if decide (q = "qa") then Engine.fulfilled 1%Z
  else if decide (q = "qb") then Engine.fulfilled 2%Z
  else Engine.rejected "no such table".

(** How long each of these queries takes to settle: [qa] is the slow
    one. *)
Definition latency (q : string) : nat :=
  if decide (q = "qa") then 2 else 1.

Definition queriesAB : QueryMap := [("a", "qa"); ("b", "qb")].

(** The end-to-end example of the specification. *)
Definition sumDashboard : DashboardConfig :=
  mkDashboard queriesAB None
    [mkPanel "P" [mkMetric "sum" "a + b" ["a"; "b"]]].

(** A metric whose dependency names neither a query nor a metric. *)
Definition stuckDashboard : DashboardConfig :=
  mkDashboard [] None [mkPanel "P" [mkMetric "m" "x" ["x"]]].

(** Two metrics that depend on each other. *)
Definition cycleDashboard : DashboardConfig :=
  mkDashboard [] None
    [mkPanel "P" [mkMetric "m1" "m2" ["m2"]; mkMetric "m2" "m1" ["m1"]]].

(** A metric that depends on a query whose execution fails. *)
Definition starvedDashboard : DashboardConfig :=
  mkDashboard [("c", "qc")] None [mkPanel "P" [mkMetric "m" "c" ["c"]]].

(** Two panels that depend on the same query. *)
Definition sharedDashboard : DashboardConfig :=
  mkDashboard queriesAB None
    [mkPanel "P" [mkMetric "x" "a" ["a"]];
     mkPanel "Q" [mkMetric "y" "a" ["a"]]].

(** Two panels with the same title and different metrics. *)
Definition twinDashboard : DashboardConfig :=
  mkDashboard queriesAB None
    [mkPanel "P" [mkMetric "x" "a" ["a"]];
     mkPanel "P" [mkMetric "y" "b" ["b"]]].

(** A metric declared before the metric it depends on. *)
Definition chain : list MetricsToCompute :=
  [mkMetric "x" "a + b" ["a"; "b"]; mkMetric "y" "x + a" ["x"; "a"]].

(** The values of the two queries, as a panel leaves them in the store. *)
Definition leaves : Engine.Store Z :=
  Engine.storeResults [("a", 1%Z); ("b", 2%Z)] Engine.emptyStore.


(** A query map with a query that fails. *)
Definition queriesAC : QueryMap := [("a", "qa"); ("c", "qc")].

(** The constructor's default ceiling. *)
Definition defaultCeiling : Z := 20.

(** A template with a token that is not declared. *)
Definition tokenTemplate : DashboardConfig :=
  mkDashboard [("q", "SELECT {{x}}")] (Some []) [].

(** A template that declares three variables. *)
Definition declaredTemplate : DashboardConfig :=
  mkDashboard [("q", "SELECT {{x}}")] (Some ["x"; "y"; "z"])
    [mkPanel "P" [mkMetric "m" "q * {{y}}" ["q"]]].

(** Variables are strings here, and [String] leaves a string as it is. *)
Definition toString (v : string) : string := v.

(** The text of the members of [Object.prototype] as V8 prints them. *)
Definition memberText (name : string) : string :=
  if decide (name = "__proto__") then "[object Object]"
  else if decide (name = "constructor")
       then "function Object() { [native code] }"
       else "function " +:+ name +:+ "() { [native code] }".

(** A template that declares a name that every object inherits, with a
    token of that name. *)
Definition inheritedTemplate : DashboardConfig :=
  mkDashboard [("q", "SELECT {{valueOf}}")] (Some ["valueOf"]) [].

(** The end-to-end example under a title that names a method of
    [Object.prototype]. *)
Definition methodDashboard : DashboardConfig :=
  mkDashboard queriesAB None
    [mkPanel "toString" [mkMetric "sum" "a + b" ["a"; "b"]]].



(** A panel whose dependencies include array indices. *)
Definition indexedQueries : QueryMap :=
  [("2", "qb"); ("10", "qa"); ("b", "qb"); ("a", "qa")].

Definition indexedPanel : Panel :=
  mkPanel "P" [mkMetric "m" "b" ["b"; "10"]; mkMetric "n" "a" ["2"; "a"; "b"]].

(** A template without tokens that declares a variable. *)
Definition plainTemplate : DashboardConfig :=
  mkDashboard [("q", "SELECT 1")] (Some ["x"])
    [mkPanel "P" [mkMetric "m" "q * 2" ["q"]]].

(** The end-to-end example for the earlier revision, with a query that no
    widget depends on and a declared variable. *)
Definition legacyDashboard : Legacy.DashboardTemplate :=
  Legacy.mkTemplate [("a", "qa"); ("b", "qb"); ("c", "qc")]
    [mkMetric "sum" "a + b" ["a"; "b"]] (Some ["x"]).

(** A metric whose expression names an identifier that nothing binds,
    declared before a metric that is stuck. *)
Definition brokenMetric : MetricsToCompute := mkMetric "bad" "zz" [].

Definition stuckMetric : MetricsToCompute := mkMetric "m" "x" ["x"].

End Fixture.

(** * What the specification says about completion order

    The order in which the executions of a batch complete, for executions
    that take [latency query] each: by increasing latency, ties in input
    order. *)

Fixpoint insertByLatency (latency : string → nat) (e : string * string)
    (l : list (string * string)) : list (string * string) :=
  match l with
  | [] => [e]
  | e' :: l' =>
      if decide (latency e.2 < latency e'.2) then e :: e' :: l'
      else e' :: insertByLatency latency e l'
  end.

Definition completionOrder (latency : string → nat)
    (batch : list (string * string)) : list (string * string) :=
  foldr (insertByLatency latency) [] batch.

(** The yields of a batch if they surfaced in completion order. *)
Definition yieldsInCompletionOrder {num : Type}
    (executeQuery : string → Engine.settled num) (latency : string → nat)
    (batch : list (string * string)) : list (string * num) :=
  Engine.yielded (Engine.allSettled executeQuery
                    (completionOrder latency batch)).

(** * Notions used to state the properties of the resolver *)

Section resolver_notions.

Context {num : Type}.
Variable mathEvaluate : string → gmap string num → num + string.

(** One sweep, as a traversal of the metrics in the order the index loop
    visits them: the evaluations made (each identifier with the number the
    evaluator returned for it), the metrics that stay pending (in visiting
    order), and the store. *)
Fixpoint sweepList (ms : list MetricsToCompute) (st : Engine.Store num)
  : outcome (list (string * num) * list MetricsToCompute * Engine.Store num) :=
  match ms with
  | [] => Done ([], [], st)
  | m :: ms' =>
      if Engine.throwsAt st m then Threw Engine.notAFunction
      else if Engine.eligible st m then
        match mathEvaluate (expression m) (Engine.calculatedValues st) with
        | inr message => Threw message
        | inl v =>
            '(evs, kept, st') ←
              sweepList ms' (Engine.assign (id m) v st) ;
            Done ((id m, v) :: evs, kept, st')
        end
      else
        '(evs, kept, st') ← sweepList ms' st ;
        Done (evs, m :: kept, st')
  end.

(** What the resolver yields for a sequence of evaluations. *)
Definition tell (evs : list (string * num))
  : list (@Engine.MetricResult num) :=
  (λ '(k, v), (k, Engine.readBack k v)) <$> evs.

(** [evaluations l st evs st']: [evs] is a sequence of evaluations of
    metrics of [l], each made when the metric was eligible and against the
    values of that moment, that leads from [st] to [st']. *)
Inductive evaluations (l : list MetricsToCompute)
  : Engine.Store num → list (string * num) → Engine.Store num → Prop :=
| evaluations_nil st : evaluations l st [] st
| evaluations_cons st m v ys st' :
    m ∈ l →
    Engine.eligible st m = true →
    mathEvaluate (expression m) (Engine.calculatedValues st) = inl v →
    evaluations l (Engine.assign (id m) v st) ys st' →
    evaluations l st ((id m, v) :: ys) st'.







(** An error that the resolver can end with: one that the evaluator threw,
    or the [TypeError] of the call of a shadowed [hasOwnProperty]. *)
Definition thrown (e : string) : Prop :=
  (∃ expr vals, mathEvaluate expr vals = inr e) ∨ e = Engine.notAFunction.

End resolver_notions.

(** The generator states a consumer can reach by calling [next], with what
    the generator has yielded on the way. *)
Inductive pulled {num : Type} (executeQuery : string → Engine.settled num)
    (maxConcurrentQueries : Z)
    (mathEvaluate : string → gmap string num → num + string)
    (g0 : Engine.PanelStream num)
  : list (Engine.Yielded num) → Engine.PanelStream num → Prop :=
| pulled_nil : pulled executeQuery maxConcurrentQueries mathEvaluate g0 [] g0
| pulled_next fuel rs g r g' :
    pulled executeQuery maxConcurrentQueries mathEvaluate g0 rs g →
    Engine.next executeQuery maxConcurrentQueries mathEvaluate fuel g
    = Done (Some r, g') →
    pulled executeQuery maxConcurrentQueries mathEvaluate g0 (rs ++ [r]) g'.

(** The panels of a list whose title is not in [seen], has not occurred
    earlier in the list and does not name a member of [Object.prototype]:
    the panels a stream computes rather than serves from its cache. *)
Fixpoint uncached (seen : list string) (panels : list Panel) : list Panel :=
  match panels with
  | [] => []
  | panel :: rest =>
      if decide (title panel ∈ seen) then uncached seen rest
      else if Obj.inherited (title panel) then uncached seen rest
      else panel :: uncached (title panel :: seen) rest
  end.

(** What a panel yields: the member of [Object.prototype] that its title
    names, when the cache is consulted, and a result under its title
    otherwise. *)
Definition yieldsFor {num : Type} (useStream : bool) (panel : Panel)
    (y : Engine.Yielded num) : Prop :=
  if useStream && Obj.inherited (title panel)
  then y = Engine.Member (title panel)
  else ∃ results, y = Engine.Result (title panel, results).

(** The cache binds a title to a result under that title, and a stream
    never binds a title that names a member of [Object.prototype]. *)
Definition cacheKeyed {num : Type} (useStream : bool)
    (cache : gmap string (@Engine.DashboardResult num)) : Prop :=
  ∀ t c, cache !! t = Some c →
    c.1 = t ∧ (useStream = true → Obj.inherited t = false).

(** A dashboard that is never computed with [fuel]: neither the aggregate
    call nor the drain of the stream returns or throws. *)
Definition neverReturns {num : Type}
    (executeQuery : string → Engine.settled num) (maxConcurrentQueries : Z)
    (mathEvaluate : string → gmap string num → num + string) (fuel : nat)
    (dashboard : DashboardConfig) : Prop :=
  Engine.executeDashboard executeQuery maxConcurrentQueries mathEvaluate
    fuel dashboard false = OutOfFuel
  ∧ Engine.drain executeQuery maxConcurrentQueries mathEvaluate fuel
      (Engine.processPanelResults (panels dashboard) (queries dashboard)
         true) = OutOfFuel.

(** * Properties of the engine *)

Section engine_facts.

Context {num : Type}.
Variable executeQuery : string → Engine.settled num.
Variable maxConcurrentQueries : Z.
Variable mathEvaluate : string → gmap string num → num + string.

Abbreviation Store := (Engine.Store num).
Abbreviation PanelCache := (gmap string (@Engine.DashboardResult num)).
Abbreviation Yielded := (Engine.Yielded num).
Abbreviation allSettled := (Engine.allSettled executeQuery).
Abbreviation processQueries :=
  (Engine.processQueries executeQuery maxConcurrentQueries).
Abbreviation sweep := (Engine.sweep mathEvaluate).
Abbreviation resolve := (Engine.resolve mathEvaluate).
Abbreviation processCalculations := (Engine.processCalculations mathEvaluate).
Abbreviation processPanel :=
  (Engine.processPanel executeQuery maxConcurrentQueries mathEvaluate).
Abbreviation next :=
  (Engine.next executeQuery maxConcurrentQueries mathEvaluate).
Abbreviation drainN :=
  (Engine.drainN executeQuery maxConcurrentQueries mathEvaluate).
Abbreviation drain :=
  (Engine.drain executeQuery maxConcurrentQueries mathEvaluate).
Abbreviation executeDashboard :=
  (Engine.executeDashboard executeQuery maxConcurrentQueries mathEvaluate).

(** ** The logs *)

Lemma logErrors_logCalls_app (e1 e2 c1 c2 : list string) (st : Store) :
  Engine.logErrors e2 (Engine.logCalls c2
    (Engine.logErrors e1 (Engine.logCalls c1 st)))
  = Engine.logErrors (e1 ++ e2) (Engine.logCalls (c1 ++ c2) st).
Proof.
  destruct st; unfold Engine.logErrors, Engine.logCalls; simpl.
  by rewrite !app_assoc.
Qed.

Lemma logErrors_logCalls_nil (st : Store) :
  Engine.logErrors [] (Engine.logCalls [] st) = st.
Proof.
  destruct st; unfold Engine.logErrors, Engine.logCalls; simpl.
  by rewrite !app_nil_r.
Qed.

(** ** The batcher *)

Lemma allSettled_app (l1 l2 : list (string * string)) :
  allSettled (l1 ++ l2) = allSettled l1 ++ allSettled l2.
Proof. unfold Engine.allSettled. apply fmap_app. Qed.

Lemma yielded_app (l1 l2 : list (string * Engine.settled num)) :
  Engine.yielded (l1 ++ l2) = Engine.yielded l1 ++ Engine.yielded l2.
Proof. unfold Engine.yielded. apply omap_app. Qed.

Lemma reported_app (l1 l2 : list (string * Engine.settled num)) :
  Engine.reported (l1 ++ l2) = Engine.reported l1 ++ Engine.reported l2.
Proof. unfold Engine.reported. apply omap_app. Qed.

(** With a ceiling of at least one, the batcher runs every query once, in
    input order, and yields the fulfilled ones in input order. *)
Lemma processQueries_total (Hmax : (1 ≤ maxConcurrentQueries)%Z)
    (fuel : nat) (queryEntries : list (string * string)) (st : Store) :
  length queryEntries < fuel →
  processQueries fuel queryEntries st
  = Done (Engine.yielded (allSettled queryEntries),
          Engine.logErrors (Engine.reported (allSettled queryEntries))
            (Engine.logCalls queryEntries.*2 st)).
Proof.
  revert queryEntries st.
  induction fuel as [|fuel IH]; intros queryEntries st Hlen; [lia|].
  destruct queryEntries as [|e l].
  - simpl. by rewrite logErrors_logCalls_nil.
  - set (entries := e :: l) in *.
    assert (Hn : 0 < Z.to_nat maxConcurrentQueries) by lia.
    assert (Hdrop : length (drop (Z.to_nat maxConcurrentQueries) entries)
                    < fuel).
    { rewrite length_drop. subst entries. simpl in *. lia. }
    change (processQueries (S fuel) entries st) with
      (let batch := take (Z.to_nat maxConcurrentQueries) entries in
       let st' := Engine.logErrors (Engine.reported (allSettled batch))
                    (Engine.logCalls batch.*2 st) in
       '(ys, st'') ←
         processQueries fuel
           (drop (Z.to_nat maxConcurrentQueries) entries) st' ;
       Done (Engine.yielded (allSettled batch) ++ ys, st'')).
    cbv zeta. rewrite (IH _ _ Hdrop). simpl.
    rewrite logErrors_logCalls_app.
    rewrite <- yielded_app, <- reported_app, <- !allSettled_app.
    rewrite <- fmap_app. by rewrite take_drop.
Qed.

Lemma yielded_fulfilled (queryEntries : list (string * string))
    (k : string) (v : num) :
  (k, v) ∈ Engine.yielded (allSettled queryEntries) ↔
  ∃ q, (k, q) ∈ queryEntries ∧ executeQuery q = Engine.fulfilled v.
Proof.
  unfold Engine.yielded, Engine.allSettled.
  rewrite list_elem_of_omap. split.
  - intros [[k' r] [Hin Hr]]. apply list_elem_of_fmap in Hin.
    destruct Hin as [[k'' q] [Heq Hin]]. simplify_eq.
    destruct (executeQuery q) eqn:Hq; simplify_eq. eauto.
  - intros [q [Hin Hq]]. exists (k, Engine.fulfilled v). split; [|done].
    apply list_elem_of_fmap. exists (k, q). by rewrite Hq.
Qed.

Lemma reported_rejected (queryEntries : list (string * string))
    (k q reason : string) :
  (k, q) ∈ queryEntries → executeQuery q = Engine.rejected reason →
  ("Erro ao executar query: " +:+ reason)
    ∈ Engine.reported (allSettled queryEntries).
Proof.
  intros Hin Hq. unfold Engine.reported, Engine.allSettled.
  apply list_elem_of_omap. exists (k, Engine.rejected reason). split; [|done].
  apply list_elem_of_fmap. exists (k, q). by rewrite Hq.
Qed.

Lemma yielded_sublist (queryEntries : list (string * string)) :
  (Engine.yielded (allSettled queryEntries)).*1 `sublist_of` queryEntries.*1.
Proof.
  induction queryEntries as [|[k q] l IH]; [done|].
  unfold Engine.yielded, Engine.allSettled in *. simpl.
  destruct (executeQuery q); simpl.
  - by apply sublist_skip.
  - by apply sublist_cons.
Qed.

(** ** The store *)

Lemma assign_lookup_ne (k k' : string) (v : num) (st : Store) :
  k ≠ k' →
  Engine.calculatedValues (Engine.assign k v st) !! k'
  = Engine.calculatedValues st !! k'.
Proof.
  intros Hne. simpl. case_decide; [done|]. by apply lookup_insert_ne.
Qed.

Lemma assign_lookup_eq (k : string) (v : num) (st : Store) :
  k ≠ "__proto__" →
  Engine.calculatedValues (Engine.assign k v st) !! k = Some v.
Proof.
  intros Hne. simpl. rewrite decide_False by done. apply lookup_insert_eq.
Qed.

Lemma assign_lookup_mono (k k' : string) (v : num) (st : Store) :
  is_Some (Engine.calculatedValues st !! k') →
  is_Some (Engine.calculatedValues (Engine.assign k v st) !! k').
Proof.
  intros Hk'. simpl. case_decide; [done|].
  destruct (decide (k = k')) as [->|Hne].
  - rewrite lookup_insert_eq. eauto.
  - by rewrite lookup_insert_ne.
Qed.

Lemma assign_lookup_inv (k k' : string) (v : num) (st : Store) :
  is_Some (Engine.calculatedValues (Engine.assign k v st) !! k') →
  is_Some (Engine.calculatedValues st !! k') ∨ k' = k.
Proof.
  destruct (decide (k = k')) as [->|Hne]; [by right|].
  rewrite assign_lookup_ne by done. by left.
Qed.

Lemma storeResults_lookup_other (qs : list (string * num)) (st : Store)
    (k : string) :
  k ∉ qs.*1 →
  Engine.calculatedValues (Engine.storeResults qs st) !! k
  = Engine.calculatedValues st !! k.
Proof.
  revert st. induction qs as [|[k' v] qs IH]; intros st Hk; [done|].
  simpl in Hk. apply not_elem_of_cons in Hk as [Hne Hk].
  unfold Engine.storeResults in *. simpl. rewrite (IH _ Hk).
  by apply assign_lookup_ne.
Qed.

Lemma storeResults_logs (qs : list (string * num)) (st : Store) :
  Engine.queryCalls (Engine.storeResults qs st) = Engine.queryCalls st
  ∧ Engine.consoleErrors (Engine.storeResults qs st)
    = Engine.consoleErrors st
  ∧ Engine.assignments (Engine.storeResults qs st)
    = Engine.assignments st ++ qs.*1.
Proof.
  revert st. induction qs as [|[k v] qs IH]; intros st.
  - simpl. by rewrite app_nil_r.
  - unfold Engine.storeResults in *. simpl.
    destruct (IH (Engine.assign k v st)) as (-> & -> & ->). simpl.
    by rewrite <- app_assoc.
Qed.

(** ** A ceiling below one *)

Lemma processQueries_spins (Hmax : (maxConcurrentQueries < 1)%Z)
    (queryEntries : list (string * string)) (fuel : nat) (st : Store) :
  queryEntries ≠ [] → processQueries fuel queryEntries st = OutOfFuel.
Proof.
  intros Hne. revert st. induction fuel as [|fuel IH]; intros st; [done|].
  destruct queryEntries as [|e l]; [done|].
  assert (Hn : Z.to_nat maxConcurrentQueries = 0) by lia.
  simpl. unfold Engine.splice0. rewrite Hn. simpl.
  rewrite logErrors_logCalls_nil. by rewrite IH.
Qed.

(** ** Where an exception can come from *)

Lemma processQueries_no_throw (fuel : nat)
    (queryEntries : list (string * string)) (st : Store) (e : string) :
  processQueries fuel queryEntries st ≠ Threw e.
Proof.
  revert queryEntries st. induction fuel as [|fuel IH]; intros l st; [done|].
  destruct l as [|x l]; [done|]. simpl.
  destruct (Engine.splice0 maxConcurrentQueries (x :: l)) as [batch rest].
  match goal with |- context [processQueries fuel ?a ?b] =>
    specialize (IH a b); destruct (processQueries fuel a b) as [[??]| |]
  end; done.
Qed.

Lemma sweep_throw (n : nat) (l : list MetricsToCompute) (st : Store)
    (e : string) :
  n ≤ length l →
  sweep n l st = Threw e → thrown mathEvaluate e.
Proof.
  revert l st. induction n as [|n IH]; intros l st Hn; [done|]. simpl.
  destruct (lookup_lt_is_Some_2 l n) as [m ->]; [lia|].
  destruct (Engine.throwsAt st m); [intros [= <-]; by right|].
  destruct (Engine.eligible st m); [|apply IH; lia].
  destruct (mathEvaluate (expression m) (Engine.calculatedValues st))
    as [v|msg] eqn:Hev.
  - match goal with |- context [sweep n ?a ?b] =>
      specialize (IH a b); destruct (sweep n a b) as [[[??]?]| |]
    end; [done| |done].
    simpl. intros [= <-]. apply IH; [|done].
    rewrite length_delete by (apply lookup_lt_is_Some_2; lia). lia.
  - intros [= <-]. left. eauto.
Qed.

Lemma resolve_throw (fuel : nat) (l : list MetricsToCompute) (st : Store)
    (e : string) :
  resolve fuel l st = Threw e → thrown mathEvaluate e.
Proof.
  revert l st. induction fuel as [|fuel IH]; intros l st; [done|].
  destruct l as [|m l]; [done|].
  change (resolve (S fuel) (m :: l) st) with
    ('(ys, pending', st') ← sweep (length (m :: l)) (m :: l) st ;
     '(zs, st'') ← resolve fuel pending' st' ;
     Done (ys ++ zs, st'')).
  destruct (sweep (length (m :: l)) (m :: l) st)
    as [[[ys pending'] st']|msg|] eqn:Hsw; [| |done].
  - simpl. specialize (IH pending' st').
    destruct (resolve fuel pending' st') as [[??]| |]; [done| |done].
    simpl. intros [= <-]. by apply IH.
  - simpl. intros [= <-]. by eapply sweep_throw.
Qed.

Lemma processPanel_throw (fuel : nat) (queries : QueryMap) (useStream : bool)
    (panel : Panel) (cache : PanelCache)
    (st : Store) (e : string) :
  processPanel fuel queries useStream panel cache st = Threw e →
  thrown mathEvaluate e.
Proof.
  unfold Engine.processPanel, Engine.processCalculations.
  match goal with |- context [if useStream then ?x else _] =>
    destruct (if useStream then x else _)
  end; [done|].
  match goal with |- context [processQueries fuel ?a ?b] =>
    pose proof (processQueries_no_throw fuel a b) as Hq;
    destruct (processQueries fuel a b) as [[qs st1]|msg|]
  end; [|by destruct (Hq msg)|done].
  simpl.
  match goal with |- context [resolve fuel ?a ?b] =>
    pose proof (resolve_throw fuel a b) as Hr;
    destruct (resolve fuel a b) as [[??]| |]
  end; [done| |done].
  simpl. intros [= <-]. by apply Hr.
Qed.

Lemma drainN_throw (n fuel : nat) (g : Engine.PanelStream num) (e : string) :
  drainN n fuel g = Threw e → thrown mathEvaluate e.
Proof.
  revert g. induction n as [|n IH]; intros g; [done|]. simpl.
  unfold Engine.next. destruct (Engine.remaining g) as [|panel rest]; [done|].
  match goal with |- context [processPanel ?f ?q ?u ?p ?c ?s] =>
    pose proof (processPanel_throw f q u p c s) as Hp;
    destruct (processPanel f q u p c s) as [[[r cache'] st']| |]
  end; [| |done].
  - simpl.
    match goal with |- context [drainN n fuel ?a] =>
      specialize (IH a); destruct (drainN n fuel a) as [[??]| |]
    end; [done| |done].
    simpl. intros [= <-]. by apply IH.
  - simpl. intros [= <-]. by apply Hp.
Qed.

(** ** One sweep *)

Abbreviation sweepList := (sweepList mathEvaluate).
Abbreviation evaluations := (evaluations mathEvaluate).
Abbreviation tell := (@tell num).

(** The index loop visits the array from its last element to its first,
    and a [splice(i, 1)] does not move the elements before [i]. *)
Lemma sweep_sweepList (pre suf : list MetricsToCompute) (st : Store) :
  sweep (length pre) (pre ++ suf) st
  = '(evs, kept, st') ← sweepList (reverse pre) st ;
    Done (tell evs, reverse kept ++ suf, st').
Proof.
  revert suf st. induction pre as [|m pre IH] using rev_ind; intros suf st.
  - done.
  - rewrite length_app, Nat.add_1_r, reverse_snoc, <- app_assoc. simpl.
    rewrite list_lookup_middle by done.
    destruct (Engine.throwsAt st m); [done|].
    destruct (Engine.eligible st m).
    + destruct (mathEvaluate (expression m) (Engine.calculatedValues st))
        as [v|msg]; [|done].
      rewrite delete_middle, IH.
      by destruct (sweepList (reverse pre) (Engine.assign (id m) v st))
        as [[[evs kept] st']| |].
    + rewrite (IH (m :: suf)).
      destruct (sweepList (reverse pre) st) as [[[evs kept] st']| |];
        [|done..].
      simpl. by rewrite reverse_cons, <- app_assoc.
Qed.

Lemma sweep_whole (l : list MetricsToCompute) (st : Store) :
  sweep (length l) l st
  = '(evs, kept, st') ← sweepList (reverse l) st ;
    Done (tell evs, reverse kept, st').
Proof.
  rewrite <- (app_nil_r l) at 2. rewrite sweep_sweepList.
  destruct (sweepList (reverse l) st) as [[[evs kept] st']| |]; [|done..].
  simpl. by rewrite app_nil_r.
Qed.

Lemma tell_keys (evs : list (string * num)) : (tell evs).*1 = evs.*1.
Proof.
  unfold tell. induction evs as [|[k v] evs IH]; [done|].
  simpl. f_equal. exact IH.
Qed.

Lemma tell_app (evs1 evs2 : list (string * num)) :
  tell (evs1 ++ evs2) = tell evs1 ++ tell evs2.
Proof. unfold tell. apply fmap_app. Qed.

Lemma eligible_spec (st : Store) (m : MetricsToCompute) :
  Engine.eligible st m = true ↔
  ∀ d, d ∈ dependencies m → is_Some (Engine.calculatedValues st !! d).
Proof.
  unfold Engine.eligible. rewrite forallb_forall. split.
  - intros H d Hd. apply list_elem_of_In in Hd.
    specialize (H d Hd). by apply bool_decide_eq_true in H.
  - intros H d Hd. apply bool_decide_eq_true, H. by apply list_elem_of_In.
Qed.

Lemma eligible_assign (st : Store) (m : MetricsToCompute) (k : string)
    (v : num) :
  Engine.eligible st m = true →
  Engine.eligible (Engine.assign k v st) m = true.
Proof.
  rewrite !eligible_spec. intros H d Hd. by apply assign_lookup_mono, H.
Qed.


Lemma throwsAt_unshadowed (st : Store) (m : MetricsToCompute) :
  Engine.shadowed st = false → Engine.throwsAt st m = false.
Proof.
  intros Hst. unfold Engine.throwsAt. rewrite Hst. apply andb_false_r.
Qed.

Lemma shadowed_false (st : Store) :
  Engine.shadowed st = false ↔
  Engine.calculatedValues st !! "hasOwnProperty" = None.
Proof.
  unfold Engine.shadowed. rewrite bool_decide_eq_false.
  destruct (Engine.calculatedValues st !! "hasOwnProperty") as [v|].
  - split; [|done]. intros H. destruct H. eauto.
  - split; [done|]. by intros _ [? ?].
Qed.

Lemma evaluations_weaken (l l' : list MetricsToCompute) (st st' : Store)
    (ys : list (string * num)) :
  (∀ m, m ∈ l → m ∈ l') → evaluations l st ys st' → evaluations l' st ys st'.
Proof.
  intros Hsub. induction 1; econstructor; eauto.
Qed.

Lemma evaluations_app (l : list MetricsToCompute) (st1 st2 st3 : Store)
    (ys zs : list (string * num)) :
  evaluations l st1 ys st2 → evaluations l st2 zs st3 →
  evaluations l st1 (ys ++ zs) st3.
Proof.
  induction 1; intros Hzs; [done|]. simpl. econstructor; eauto.
Qed.

Lemma evaluations_store (l : list MetricsToCompute) (st st' : Store)
    (ys : list (string * num)) :
  evaluations l st ys st' → st' = Engine.storeResults ys st.
Proof. induction 1; [done|]. by subst. Qed.

(** What a sweep that returns has done. *)
Lemma sweepList_done (ms kept : list MetricsToCompute) (st st' : Store)
    (ys : list (string * num)) :
  sweepList ms st = Done (ys, kept, st') →
  evaluations ms st ys st'
  ∧ ys.*1 ++ (id <$> kept) ≡ₚ id <$> ms
  ∧ kept `sublist_of` ms
  ∧ (∀ m, m ∈ kept → Engine.eligible st m = false)
  ∧ ((∃ m, m ∈ ms ∧ Engine.eligible st m = true) → ys ≠ []).
Proof.
  revert kept st st' ys.
  induction ms as [|m ms IH]; intros kept st st' ys; simpl.
  - intros [= <- <- <-]. split_and!; try done.
    + constructor.
    + intros x Hx. by apply elem_of_nil in Hx.
    + intros (x & Hx & _). by apply elem_of_nil in Hx.
  - destruct (Engine.throwsAt st m); [done|].
    destruct (Engine.eligible st m) eqn:Hel.
    + destruct (mathEvaluate (expression m) (Engine.calculatedValues st))
        as [v|msg] eqn:Hev; [|done].
      destruct (sweepList ms (Engine.assign (id m) v st))
        as [[[ys0 kept0] st0]| |] eqn:Hsw; [|done..].
      simpl. intros [= <- <- <-].
      destruct (IH _ _ _ _ Hsw) as (Hevs & Hperm & Hsub & Hkept & _).
      split_and!.
      * econstructor; [by left|done..|].
        eapply evaluations_weaken; [|done]. intros x Hx. by right.
      * simpl. by rewrite Hperm.
      * by apply sublist_cons.
      * intros x Hx. specialize (Hkept x Hx).
        destruct (Engine.eligible st x) eqn:Hx'; [|done].
        by rewrite (eligible_assign _ _ _ _ Hx') in Hkept.
      * done.
    + destruct (sweepList ms st) as [[[ys0 kept0] st0]| |] eqn:Hsw; [|done..].
      simpl. intros [= <- <- <-].
      destruct (IH _ _ _ _ Hsw) as (Hevs & Hperm & Hsub & Hkept & Hprog).
      split_and!.
      * eapply evaluations_weaken; [|done]. intros x Hx. by right.
      * simpl. rewrite <- Hperm. by rewrite Permutation_middle.
      * by apply sublist_skip.
      * intros x Hx. apply elem_of_cons in Hx as [->|Hx]; auto.
      * intros (x & Hx & Hex). apply Hprog. exists x. split; [|done].
        apply elem_of_cons in Hx as [->|Hx]; [congruence|done].
Qed.


(** ** The resolution loop on an acyclic set *)

Lemma storeResults_lookup_mono (qs : list (string * num)) (st : Store)
    (k : string) :
  is_Some (Engine.calculatedValues st !! k) →
  is_Some (Engine.calculatedValues (Engine.storeResults qs st) !! k).
Proof.
  revert st. induction qs as [|[k' v] qs IH]; intros st Hk; [done|].
  unfold Engine.storeResults in *. simpl. apply IH.
  by apply assign_lookup_mono.
Qed.

Lemma storeResults_lookup_key (qs : list (string * num)) (st : Store)
    (k : string) :
  k ≠ "__proto__" → k ∈ qs.*1 →
  is_Some (Engine.calculatedValues (Engine.storeResults qs st) !! k).
Proof.
  intros Hproto. revert st. induction qs as [|[k' v] qs IH]; intros st Hk.
  - by apply elem_of_nil in Hk.
  - simpl in Hk. apply elem_of_cons in Hk as [->|Hk].
    + apply (storeResults_lookup_mono qs (Engine.assign k' v st)).
      rewrite assign_lookup_eq by done. eauto.
    + by apply (IH (Engine.assign k' v st)).
Qed.

Lemma storeResults_lookup_value (qs : list (string * num)) (st : Store)
    (k : string) (v : num) :
  k ≠ "__proto__" → NoDup qs.*1 → (k, v) ∈ qs →
  Engine.calculatedValues (Engine.storeResults qs st) !! k = Some v.
Proof.
  intros Hproto. revert st.
  induction qs as [|[k' v'] qs IH]; intros st Hnd Hin.
  - by apply elem_of_nil in Hin.
  - simpl in Hnd. apply NoDup_cons in Hnd as [Hk' Hnd].
    apply elem_of_cons in Hin as [[= -> ->]|Hin].
    + change (Engine.storeResults ((k', v') :: qs) st)
        with (Engine.storeResults qs (Engine.assign k' v' st)).
      rewrite storeResults_lookup_other by done.
      by apply assign_lookup_eq.
    + by apply (IH (Engine.assign k' v' st)).
Qed.

Lemma storeResults_shadowed (qs : list (string * num)) (st : Store) :
  "hasOwnProperty" ∉ qs.*1 →
  Engine.shadowed (Engine.storeResults qs st) = Engine.shadowed st.
Proof.
  intros Hout. unfold Engine.shadowed.
  by rewrite storeResults_lookup_other.
Qed.



Lemma resolve_fuel_mono (fuel fuel' : nat) (l : list MetricsToCompute)
    (st : Store) (r : list (@Engine.MetricResult num) * Store) :
  resolve fuel l st = Done r → fuel ≤ fuel' → resolve fuel' l st = Done r.
Proof.
  revert fuel' l st r. induction fuel as [|fuel IH]; intros fuel' l st r;
    [done|].
  intros Hres Hle. destruct fuel' as [|fuel']; [lia|].
  destruct l as [|m l]; [done|].
  change (resolve (S fuel') (m :: l) st) with
    ('(ys, pending', st') ← sweep (length (m :: l)) (m :: l) st ;
     '(zs, st'') ← resolve fuel' pending' st' ;
     Done (ys ++ zs, st'')).
  change (resolve (S fuel) (m :: l) st) with
    ('(ys, pending', st') ← sweep (length (m :: l)) (m :: l) st ;
     '(zs, st'') ← resolve fuel pending' st' ;
     Done (ys ++ zs, st'')) in Hres.
  destruct (sweep (length (m :: l)) (m :: l) st)
    as [[[ys pending'] st']| |]; [|done..].
  simpl in *.
  destruct (resolve fuel pending' st') as [r'| |] eqn:Hr; [|done..].
  rewrite (IH fuel' _ _ _ Hr) by lia. done.
Qed.

Lemma NoDup_fmap_eq {A B : Type} (f : A → B) (l : list A) (x y : A) :
  NoDup (f <$> l) → x ∈ l → y ∈ l → f x = f y → x = y.
Proof.
  induction l as [|a l IH]; intros Hnd Hx Hy Heq.
  - by apply elem_of_nil in Hx.
  - simpl in Hnd. apply NoDup_cons in Hnd as [Ha Hnd].
    apply elem_of_cons in Hx as [->|Hx]; apply elem_of_cons in Hy as [->|Hy].
    + done.
    + destruct Ha. rewrite Heq. apply list_elem_of_fmap. eauto.
    + destruct Ha. rewrite <- Heq. apply list_elem_of_fmap. eauto.
    + by apply IH.
Qed.




Lemma readBack_Number (k : string) (n : num) :
  k ≠ "__proto__" → Engine.readBack k n = Engine.Number n.
Proof. intros Hk. unfold Engine.readBack. by rewrite decide_False. Qed.


(** ** The resolution loop on a stuck set *)

Lemma sweep_stuck (n : nat) (l : list MetricsToCompute) (st : Store) :
  n ≤ length l →
  Engine.shadowed st = false →
  (∀ m, m ∈ l → Engine.eligible st m = false) →
  sweep n l st = Done ([], l, st).
Proof.
  intros Hn Hst Hstuck. induction n as [|n IH]; [done|]. simpl.
  destruct (lookup_lt_is_Some_2 l n) as [m Hm]; [lia|]. rewrite Hm.
  rewrite throwsAt_unshadowed by done.
  rewrite (Hstuck m (list_elem_of_lookup_2 _ _ _ Hm)). apply IH. lia.
Qed.

Lemma resolve_stuck (fuel : nat) (l : list MetricsToCompute) (st : Store) :
  l ≠ [] → Engine.shadowed st = false →
  (∀ m, m ∈ l → Engine.eligible st m = false) →
  resolve fuel l st = OutOfFuel.
Proof.
  intros Hne Hst Hstuck. induction fuel as [|fuel IH]; [done|].
  destruct l as [|m l]; [done|].
  change (resolve (S fuel) (m :: l) st) with
    ('(ys, pending', st') ← sweep (length (m :: l)) (m :: l) st ;
     '(zs, st'') ← resolve fuel pending' st' ;
     Done (ys ++ zs, st'')).
  rewrite sweep_stuck by done. simpl. by rewrite IH.
Qed.

(** ** The panel loop *)

Lemma cacheRead_empty (t : string) :
  Obj.inherited t = false → Engine.cacheRead (∅ : PanelCache) t = None.
Proof.
  intros Ht. unfold Engine.cacheRead. by rewrite lookup_empty, Ht.
Qed.

Lemma processPanel_miss (fuel : nat) (queries : QueryMap) (useStream : bool)
    (panel : Panel) (cache : PanelCache)
    (st : Store) :
  (useStream = true → Engine.cacheRead cache (title panel) = None) →
  processPanel fuel queries useStream panel cache st
  = '(results, st') ←
      processCalculations fuel (metrics panel)
        (processQueries fuel
           (Obj.entries (Engine.relevantQueries queries (metrics panel))))
        st ;
    Done (Engine.Result (title panel, results),
          Engine.cacheWrite cache (title panel) (title panel, results), st').
Proof.
  intros Hmiss. unfold Engine.processPanel.
  destruct useStream; [|done]. by rewrite Hmiss.
Qed.

Lemma processPanel_hit (fuel : nat) (queries : QueryMap) (panel : Panel)
    (cache : PanelCache) (st : Store) (cached : Yielded) :
  Engine.cacheRead cache (title panel) = Some cached →
  processPanel fuel queries true panel cache st = Done (cached, cache, st).
Proof. intros Hhit. unfold Engine.processPanel. by rewrite Hhit. Qed.

(** With a ceiling below one, a panel that needs a query never gets its
    result. *)
Lemma processPanel_spins (Hmax : (maxConcurrentQueries < 1)%Z) (fuel : nat)
    (queries : QueryMap) (useStream : bool) (panel : Panel)
    (cache : PanelCache) (st : Store) :
  (useStream = true → Engine.cacheRead cache (title panel) = None) →
  Obj.entries (Engine.relevantQueries queries (metrics panel)) ≠ [] →
  processPanel fuel queries useStream panel cache st = OutOfFuel.
Proof.
  intros Hmiss Hne. rewrite processPanel_miss by done.
  unfold Engine.processCalculations.
  by rewrite processQueries_spins.
Qed.

Lemma drainN_nil (n fuel : nat) (queries : QueryMap) (useStream : bool)
    (cache : PanelCache) (st : Store) :
  drainN (S n) fuel (Engine.mkStream [] queries useStream cache st)
  = Done ([], Engine.mkStream [] queries useStream cache st).
Proof. done. Qed.

Lemma drainN_cons (n fuel : nat) (panel : Panel) (rest : list Panel)
    (queries : QueryMap) (useStream : bool) (cache : PanelCache)
    (st : Store) :
  drainN (S n) fuel
    (Engine.mkStream (panel :: rest) queries useStream cache st)
  = '(r, cache', st') ←
      processPanel fuel queries useStream panel cache st ;
    '(rs, g) ←
      drainN n fuel (Engine.mkStream rest queries useStream cache' st') ;
    Done (r :: rs, g).
Proof.
  cbn [Engine.drainN]. unfold Engine.next. cbn [Engine.remaining
    Engine.streamQueries Engine.streamFlag Engine.panelCache Engine.store].
  by destruct (processPanel fuel queries useStream panel cache st)
    as [[[r cache'] st']| |].
Qed.

(** C10: if the engine is constructed with a ceiling below one, then on
    every non-empty query map the batching loop takes an empty batch, leaves
    the entry list as it was, and so never ends; a dashboard whose first
    panel needs a query is never computed, neither by the aggregate mode nor
    by the first [next()] of the stream (which computes the panel unless
    its title names a member of [Object.prototype]). *)
Theorem ceiling_below_one_never_terminates
    (Hmax : (maxConcurrentQueries < 1)%Z)
    (queryEntries : list (string * string)) :
  queryEntries ≠ [] →
  Engine.splice0 maxConcurrentQueries queryEntries = ([], queryEntries)
  ∧ (∀ fuel st, processQueries fuel queryEntries st = OutOfFuel)
  ∧ (∀ fuel dashboard panel rest,
       panels dashboard = panel :: rest →
       Obj.entries
         (Engine.relevantQueries (queries dashboard) (metrics panel))
       = queryEntries →
       executeDashboard fuel dashboard false = OutOfFuel
       ∧ (Obj.inherited (title panel) = false →
          drain fuel (Engine.processPanelResults (panels dashboard)
                        (queries dashboard) true)
          = OutOfFuel)).
Proof.
  intros Hne. split_and!.
  - unfold Engine.splice0.
    replace (Z.to_nat maxConcurrentQueries) with 0 by lia.
    by rewrite take_0, drop_0.
  - intros fuel st. by apply processQueries_spins.
  - intros fuel dashboard panel rest Hpanels Hrel.
    unfold Engine.executeDashboard, Engine.drain, Engine.processPanelResults.
    cbn [Engine.remaining]. rewrite Hpanels. cbn [length].
    rewrite !drainN_cons. split.
    + rewrite processPanel_spins; [done|done|done|by rewrite Hrel].
    + intros Htitle.
      rewrite processPanel_spins; [done|done| |by rewrite Hrel].
      intros _. by apply cacheRead_empty.
Qed.

(** C7: a query whose execution fails is left out of what the batcher
    yields and its identifier is not assigned in the shared values, while
    every query of the map is still executed, every fulfilled one is still
    yielded, and the failure is only written to the console; an
    [executeDashboard] call, aggregate or drained, throws only what the
    resolver throws: an error of the expression evaluator, or the
    [TypeError] of an identifier that shadows [hasOwnProperty]. *)
Theorem failing_query_is_skipped (Hmax : (1 ≤ maxConcurrentQueries)%Z)
    (queryEntries : list (string * string)) (st : Store) :
  NoDup queryEntries.*1 →
  ∃ ys st',
    (∀ fuel, length queryEntries < fuel →
       processQueries fuel queryEntries st = Done (ys, st'))
    ∧ Engine.queryCalls st' = Engine.queryCalls st ++ queryEntries.*2
    ∧ Engine.calculatedValues st' = Engine.calculatedValues st
    ∧ (∀ k q v, (k, q) ∈ queryEntries →
         executeQuery q = Engine.fulfilled v → (k, v) ∈ ys)
    ∧ (∀ k q reason, (k, q) ∈ queryEntries →
         executeQuery q = Engine.rejected reason →
         (k ∉ ys.*1)
         ∧ Engine.calculatedValues (Engine.storeResults ys st') !! k
           = Engine.calculatedValues st !! k
         ∧ ("Erro ao executar query: " +:+ reason)
             ∈ Engine.consoleErrors st')
    ∧ (∀ fuel e, processQueries fuel queryEntries st ≠ Threw e)
    ∧ (∀ fuel dashboard useStream e,
         executeDashboard fuel dashboard useStream = Threw e
         ∨ (∃ g, executeDashboard fuel dashboard useStream
                 = Done (Engine.Generator g)
                 ∧ drain fuel g = Threw e) →
         thrown mathEvaluate e).
Proof.
  intros Hnd.
  exists (Engine.yielded (allSettled queryEntries)),
    (Engine.logErrors (Engine.reported (allSettled queryEntries))
       (Engine.logCalls queryEntries.*2 st)).
  assert (Hout : ∀ k q reason, (k, q) ∈ queryEntries →
            executeQuery q = Engine.rejected reason →
            k ∉ (Engine.yielded (allSettled queryEntries)).*1).
  { intros k q reason Hin Hq Hk.
    apply list_elem_of_fmap in Hk as ([k' v] & -> & Hv).
    apply yielded_fulfilled in Hv as (q' & Hin' & Hq'). simpl in *.
    assert (Heq : (k', q) = (k', q'))
      by by apply (NoDup_fmap_eq fst queryEntries).
    congruence. }
  split_and!.
  - intros fuel Hfuel. by apply processQueries_total.
  - done.
  - done.
  - intros k q v Hin Hq. apply yielded_fulfilled. eauto.
  - intros k q reason Hin Hq. split_and!.
    + by eapply Hout.
    + rewrite storeResults_lookup_other; [done|by eapply Hout].
    + simpl. apply elem_of_app. right. by eapply reported_rejected.
  - intros fuel e. apply processQueries_no_throw.
  - intros fuel dashboard useStream e.
    unfold Engine.executeDashboard, Engine.drain.
    destruct useStream.
    + intros [?|(g & Hg & Hthrow)]; [done|].
      injection Hg as <-. by eapply drainN_throw.
    + intros [Hthrow|(g & Hg & _)].
      2:{ by destruct (drainN _ _ _) as [[??]| |]. }
      match type of Hthrow with context [drainN ?n ?f ?g] =>
        pose proof (drainN_throw n f g) as Hd;
        destruct (drainN n f g) as [[??]|msg|]
      end; [done| |done].
      simpl in Hthrow. injection Hthrow as <-. by apply Hd.
Qed.

(** C9, as the code has it: the results of a batch are yielded in the
    order of the entries in the input query map, which is the order of the
    result array of [Promise.allSettled], whatever the order in which the
    executions complete. *)
Theorem yields_follow_input_order (Hmax : (1 ≤ maxConcurrentQueries)%Z)
    (queryEntries : list (string * string)) (st : Store) (fuel : nat) :
  length queryEntries < fuel →
  ∃ ys st',
    processQueries fuel queryEntries st = Done (ys, st')
    ∧ ys = Engine.yielded (allSettled queryEntries)
    ∧ ys.*1 `sublist_of` queryEntries.*1.
Proof.
  intros Hfuel. eexists _, _. split_and!.
  - by apply processQueries_total.
  - done.
  - apply yielded_sublist.
Qed.


(** ** The two modes *)

Lemma cacheRead_None (cache : PanelCache) (t : string) :
  Engine.cacheRead cache t = None ↔
  cache !! t = None ∧ Obj.inherited t = false.
Proof.
  unfold Engine.cacheRead.
  destruct (cache !! t); [by split; [|intros [? _]]|].
  destruct (Obj.inherited t); [by split; [|intros [_ ?]]|done].
Qed.

Lemma cacheWrite_insert (cache : PanelCache) (t : string)
    (r : @Engine.DashboardResult num) :
  Obj.inherited t = false → Engine.cacheWrite cache t r = <[t := r]> cache.
Proof.
  intros Ht. unfold Engine.cacheWrite. case_decide as Heq; [|done].
  by rewrite Heq in Ht.
Qed.


(** ** The cache of a stream *)

Lemma pulled_cache (panels : list Panel) (queries : QueryMap)
    (rs : list Yielded) (g : Engine.PanelStream num) :
  pulled executeQuery maxConcurrentQueries mathEvaluate
    (Engine.processPanelResults panels queries true) rs g →
  Engine.streamFlag g = true
  ∧ (∀ t c, Engine.panelCache g !! t = Some c →
       c.1 = t ∧ Obj.inherited t = false)
  ∧ (∀ y, y ∈ rs →
       Engine.cacheRead (Engine.panelCache g) (Engine.yieldTitle y)
       = Some y).
Proof.
  induction 1 as [|fuel rs g r g' Hpulled (Hflag & Hkey & Hall) Hnext].
  - split_and!; [done| |].
    + intros t c Hc. simpl in Hc. by rewrite lookup_empty in Hc.
    + intros r Hr. by apply elem_of_nil in Hr.
  - unfold Engine.next in Hnext.
    destruct (Engine.remaining g) as [|panel rest]; [done|].
    rewrite Hflag in Hnext.
    destruct (Engine.cacheRead (Engine.panelCache g) (title panel))
      as [c|] eqn:Hc.
    + rewrite (processPanel_hit _ _ _ _ _ c Hc) in Hnext.
      simpl in Hnext. injection Hnext as <- <-. simpl.
      split_and!; [done..|].
      intros y Hy. apply elem_of_app in Hy as [Hy|Hy]; [by apply Hall|].
      apply list_elem_of_singleton in Hy as ->.
      assert (Htitle : Engine.yieldTitle c = title panel).
      { unfold Engine.cacheRead in Hc.
        destruct (Engine.panelCache g !! title panel) as [r0|] eqn:Hr0.
        - injection Hc as <-. by destruct (Hkey _ _ Hr0).
        - destruct (Obj.inherited (title panel)); [|done].
          by injection Hc as <-. }
      by rewrite Htitle.
    + rewrite processPanel_miss in Hnext by done.
      destruct (processCalculations fuel (metrics panel) _ (Engine.store g))
        as [[results st']| |]; [|done..].
      simpl in Hnext. injection Hnext as <- <-. simpl.
      apply cacheRead_None in Hc as [Hnone Htitle].
      rewrite cacheWrite_insert by done.
      split_and!; [done| |].
      * intros t c. destruct (decide (title panel = t)) as [<-|Hne].
        -- rewrite lookup_insert_eq. by intros [= <-].
        -- rewrite lookup_insert_ne by done. apply Hkey.
      * intros y Hy. apply elem_of_app in Hy as [Hy|Hy].
        -- specialize (Hall y Hy). unfold Engine.cacheRead in *.
           rewrite lookup_insert_ne; [done|].
           intros Heq. rewrite <- Heq, Hnone, Htitle in Hall. done.
        -- apply list_elem_of_singleton in Hy as ->. simpl.
           unfold Engine.cacheRead. by rewrite lookup_insert_eq.
Qed.


(** C8: in a streaming execution, when the panel to produce next has a
    title that the stream has produced before, [next()] returns the cached
    result, which is the one result produced under that title so far; the
    store is left as it was, so no query is executed and no value is
    assigned for it. *)
Theorem repeated_title_served_from_cache (panels : list Panel)
    (queries : QueryMap) (rs : list Yielded)
    (g : Engine.PanelStream num) (panel : Panel) (rest : list Panel)
    (fuel : nat) :
  pulled executeQuery maxConcurrentQueries mathEvaluate
    (Engine.processPanelResults panels queries true) rs g →
  Engine.remaining g = panel :: rest →
  title panel ∈ Engine.yieldTitle <$> rs →
  ∃ r g',
    next fuel g = Done (Some r, g')
    ∧ r ∈ rs
    ∧ Engine.yieldTitle r = title panel
    ∧ (∀ r0, r0 ∈ rs → Engine.yieldTitle r0 = title panel → r0 = r)
    ∧ Engine.remaining g' = rest
    ∧ Engine.panelCache g' = Engine.panelCache g
    ∧ Engine.store g' = Engine.store g
    ∧ Engine.queryCalls (Engine.store g') = Engine.queryCalls (Engine.store g).
Proof.
  intros Hpulled Hrem Hseen.
  destruct (pulled_cache _ _ _ _ Hpulled) as (Hflag & Hkey & Hall).
  apply list_elem_of_fmap in Hseen as (r & Htitle & Hr).
  pose proof (Hall r Hr) as Hc. rewrite <- Htitle in Hc.
  exists r. eexists. split_and!.
  - unfold Engine.next. rewrite Hrem, Hflag.
    by rewrite (processPanel_hit _ _ _ _ _ r Hc).
  - done.
  - done.
  - intros r0 Hr0 Heq. specialize (Hall r0 Hr0). rewrite Heq in Hall.
    pose proof (eq_trans (eq_sym Hall) Hc) as Hsame. by injection Hsame.
  - done.
  - done.
  - done.
  - done.
Qed.

(** ** The queries of a panel *)

Lemma nonempty_eqb (q : string) : negb (String.eqb q "") = true ↔ q ≠ "".
Proof.
  rewrite negb_true_iff. split.
  - intros Hq ->. by rewrite String.eqb_refl in Hq.
  - intros Hq. by apply String.eqb_neq.
Qed.

Lemma get_elem_of {V : Type} (o : list (string * V)) (k : string) (v : V) :
  Obj.get o k = Some v → (k, v) ∈ o.
Proof.
  induction o as [|[k' v'] o IH]; [done|]. simpl. case_decide as Hk.
  - intros [= <-]. subst. by left.
  - intros Hget. right. by apply IH.
Qed.

Lemma get_None {V : Type} (o : list (string * V)) (k : string) :
  Obj.get o k = None ↔ k ∉ o.*1.
Proof.
  induction o as [|[k' v'] o IH]; simpl.
  - split; [|done]. intros _ Hin. by apply elem_of_nil in Hin.
  - case_decide as Hk.
    + split; [done|]. intros Hin. destruct Hin. subst. by left.
    + rewrite IH, not_elem_of_cons. split; [|by intros [_ ?]].
      intros Hin. split; [congruence|done].
Qed.

Lemma set_fresh {V : Type} (o : list (string * V)) (k : string) (v : V) :
  k ∉ o.*1 → Obj.set o k v = o ++ [(k, v)].
Proof.
  induction o as [|[k' v'] o IH]; [done|]. simpl. intros Hk.
  apply not_elem_of_cons in Hk as [Hne Hk]. rewrite decide_False by done.
  by rewrite IH.
Qed.

Lemma relevantQueries_flat (queries : QueryMap)
    (ms : list MetricsToCompute) :
  Engine.relevantQueries queries ms
  = foldl (Engine.addDependency queries) [] (ms ≫= dependencies).
Proof.
  unfold Engine.relevantQueries. generalize (@nil (string * string)).
  induction ms as [|m ms IH]; intros acc; [done|]. simpl.
  by rewrite IH, foldl_app.
Qed.

(** One step of the accumulation, on an accumulator without an empty query
    text: the dependency is appended when the query map owns it with a
    non-empty text, the accumulator does not own it yet, and it does not
    name a member of [Object.prototype]; otherwise nothing changes. *)
Lemma addDependency_step (queries acc : QueryMap) (d : string) :
  (∀ k q, (k, q) ∈ acc → q ≠ "") →
  (∃ qd, Obj.get queries d = Some qd ∧ qd ≠ "" ∧ (d ∉ acc.*1)
         ∧ Obj.inherited d = false
         ∧ Engine.addDependency queries acc d = acc ++ [(d, qd)])
  ∨ (Engine.addDependency queries acc d = acc
     ∧ ∀ qd, Obj.get queries d = Some qd → qd ≠ "" →
         Obj.inherited d = false → d ∈ acc.*1).
Proof.
  intros Hacc. unfold Engine.addDependency, Obj.truthyAt.
  destruct (Obj.get queries d) as [qd|] eqn:Hqd.
  2:{ right. split; [|done].
      by destruct (Obj.inherited d && _). }
  destruct (negb (String.eqb qd "")) eqn:Htd.
  2:{ right. split; [done|]. intros q [= <-] Hq.
      apply nonempty_eqb in Hq. congruence. }
  apply nonempty_eqb in Htd.
  destruct (Obj.get acc d) as [qa|] eqn:Hqa.
  - pose proof (get_elem_of _ _ _ Hqa) as Hin.
    apply Hacc, nonempty_eqb in Hin as ->. right. split; [done|].
    intros _ _ _ _. apply list_elem_of_fmap. exists (d, qa).
    split; [done|]. by apply get_elem_of.
  - apply get_None in Hqa. destruct (Obj.inherited d) eqn:Hd.
    + right. split; [done|]. by intros q _ _ ?.
    + left. exists qd. split_and!; [done..|]. simpl. by apply set_fresh.
Qed.

Lemma addDependency_fold (queries : QueryMap) (ds : list string)
    (acc : QueryMap) :
  NoDup acc.*1 →
  (∀ k q, (k, q) ∈ acc →
     Obj.get queries k = Some q ∧ q ≠ "" ∧ Obj.inherited k = false) →
  NoDup (foldl (Engine.addDependency queries) acc ds).*1
  ∧ ∀ k q, (k, q) ∈ foldl (Engine.addDependency queries) acc ds ↔
           (k, q) ∈ acc
           ∨ (k ∈ ds ∧ Obj.get queries k = Some q ∧ q ≠ ""
              ∧ Obj.inherited k = false).
Proof.
  revert acc. induction ds as [|d ds IH]; intros acc Hnd Hacc.
  { split; [done|]. intros k q. split; [by left|].
    intros [?|[H _]]; [done|]. by apply elem_of_nil in H. }
  cbn [foldl].
  destruct (addDependency_step queries acc d)
    as [(qd & Hqd & Hne & Hout & Hd & ->)|[-> Hskip]].
  { intros k q Hin. by destruct (Hacc k q Hin) as (_ & ? & _). }
  - destruct (IH (acc ++ [(d, qd)])) as [Hnd' Hin].
    + rewrite fmap_app. apply NoDup_app. split_and!; [done| |].
      * intros k Hk Hk'. simpl in Hk'.
        apply list_elem_of_singleton in Hk'. by subst.
      * simpl. apply NoDup_singleton.
    + intros k q Hk. apply elem_of_app in Hk as [Hk|Hk]; [by apply Hacc|].
      apply list_elem_of_singleton in Hk. by simplify_eq.
    + split; [done|]. intros k q. rewrite Hin, elem_of_app.
      rewrite list_elem_of_singleton, elem_of_cons. split.
      * intros [[?|Heq]|(? & ? & ? & ?)]; [by left| |].
        -- simplify_eq. right. split_and!; [by left|done..].
        -- right. split_and!; [by right|done..].
      * intros [?|([->|Hk] & Hq & ? & ?)]; [by left;left| |by right].
        left. right. by assert (qd = q) as <- by congruence.
  - destruct (IH acc Hnd Hacc) as [Hnd' Hin]. split; [done|].
    intros k q. rewrite Hin. split.
    + intros [?|(? & ? & ? & ?)]; [by left|].
      right. split_and!; [by right|done..].
    + intros [?|(Hk & Hq & Hne & Hd)]; [by left|].
      apply elem_of_cons in Hk as [->|Hk]; [|by right]. left.
      pose proof (Hskip q Hq Hne Hd) as Hin'.
      apply list_elem_of_fmap in Hin' as ([k' q'] & -> & Hin').
      destruct (Hacc _ _ Hin') as (Hq' & _). simpl in *.
      by assert (q' = q) as <- by congruence.
Qed.

Lemma relevantQueries_spec (queries : QueryMap)
    (ms : list MetricsToCompute) :
  NoDup (Engine.relevantQueries queries ms).*1
  ∧ ∀ k q, (k, q) ∈ Engine.relevantQueries queries ms ↔
           (∃ m, m ∈ ms ∧ k ∈ dependencies m)
           ∧ Obj.get queries k = Some q ∧ q ≠ ""
           ∧ Obj.inherited k = false.
Proof.
  rewrite relevantQueries_flat.
  destruct (addDependency_fold queries (ms ≫= dependencies) [])
    as [Hnd Hin].
  - constructor.
  - intros k q H. by apply elem_of_nil in H.
  - split; [done|]. intros k q. rewrite Hin, list_elem_of_bind. split.
    + intros [H|((m & ? & ?) & ? & ? & ?)]; [by apply elem_of_nil in H|].
      eauto 7.
    + intros ((m & ? & ?) & ? & ? & ?). right. eauto 7.
Qed.

(** ** The order of [Object.entries] *)

Lemma insertIndexed_perm {V : Type} (e : N * (string * V))
    (l : list (N * (string * V))) :
  Obj.insertIndexed e l ≡ₚ e :: l.
Proof.
  induction l as [|e' l IH]; [done|]. simpl.
  destruct (e.1 <=? e'.1)%N; [done|]. by rewrite IH, Permutation_swap.
Qed.

Lemma entries_perm {V : Type} (o : list (string * V)) : Obj.entries o ≡ₚ o.
Proof.
  unfold Obj.entries, Obj.indexed, Obj.named.
  induction o as [|e o IH]; [done|]. rewrite filter_cons. cbn [omap list_omap].
  destruct (Obj.arrayIndex e.1) as [n|] eqn:Hn.
  - cbn [mbind option_bind foldr]. rewrite decide_False by done.
    rewrite insertIndexed_perm. cbn [fmap list_fmap]. simpl.
    by rewrite IH.
  - cbn [mbind option_bind]. rewrite decide_True by done.
    by rewrite <- Permutation_middle, IH.
Qed.

Lemma entries_elem_of {V : Type} (o : list (string * V)) (e : string * V) :
  e ∈ Obj.entries o ↔ e ∈ o.
Proof. by rewrite entries_perm. Qed.

Lemma entries_keys_NoDup {V : Type} (o : list (string * V)) :
  NoDup o.*1 → NoDup (Obj.entries o).*1.
Proof. intros Hnd. by rewrite entries_perm. Qed.

Lemma entries_length {V : Type} (o : list (string * V)) :
  length (Obj.entries o) = length o.
Proof. by rewrite entries_perm. Qed.

(** ** What a run leaves in the logs *)

Lemma processQueries_done (fuel : nat)
    (queryEntries : list (string * string)) (st st' : Store)
    (ys : list (string * num)) :
  processQueries fuel queryEntries st = Done (ys, st') →
  ys = Engine.yielded (allSettled queryEntries)
  ∧ st' = Engine.logErrors (Engine.reported (allSettled queryEntries))
            (Engine.logCalls queryEntries.*2 st).
Proof.
  revert queryEntries st st' ys.
  induction fuel as [|fuel IH]; intros l st st' ys; [done|].
  destruct l as [|e l].
  { simpl. intros [= <- <-]. by rewrite logErrors_logCalls_nil. }
  set (entries := e :: l).
  change (processQueries (S fuel) entries st) with
    (let batch := take (Z.to_nat maxConcurrentQueries) entries in
     let st0 := Engine.logErrors (Engine.reported (allSettled batch))
                  (Engine.logCalls batch.*2 st) in
     '(zs, st1) ←
       processQueries fuel
         (drop (Z.to_nat maxConcurrentQueries) entries) st0 ;
     Done (Engine.yielded (allSettled batch) ++ zs, st1)).
  cbv zeta.
  destruct (processQueries fuel _ _) as [[zs st1]| |] eqn:Hrec; [|done..].
  simpl. intros [= <- <-]. destruct (IH _ _ _ _ Hrec) as [-> ->].
  rewrite logErrors_logCalls_app.
  rewrite <- yielded_app, <- reported_app, <- !allSettled_app.
  rewrite <- fmap_app. by rewrite take_drop.
Qed.

Lemma storeResults_app (ys zs : list (string * num)) (st : Store) :
  Engine.storeResults (ys ++ zs) st
  = Engine.storeResults zs (Engine.storeResults ys st).
Proof. unfold Engine.storeResults. apply foldl_app. Qed.

(** What the resolver has done when it returns: a sequence of evaluations
    that covers every pending metric. *)
Lemma resolve_evaluations (fuel : nat) (l : list MetricsToCompute)
    (st st' : Store) (ys : list (@Engine.MetricResult num)) :
  resolve fuel l st = Done (ys, st') →
  ∃ evs, ys = tell evs ∧ evaluations l st evs st' ∧ evs.*1 ≡ₚ id <$> l.
Proof.
  revert l st st' ys. induction fuel as [|fuel IH]; intros l st st' ys;
    [done|].
  destruct l as [|m0 l0].
  { intros [= <- <-]. exists []. split_and!; [done|constructor|done]. }
  set (l := m0 :: l0).
  change (resolve (S fuel) l st) with
    ('(ys, pending', st') ← sweep (length l) l st ;
     '(zs, st'') ← resolve fuel pending' st' ;
     Done (ys ++ zs, st'')).
  rewrite sweep_whole.
  destruct (sweepList (reverse l) st) as [[[evs0 kept] st0]| |] eqn:Hsw;
    [|done..].
  cbn [mbind outcome_bind].
  destruct (resolve fuel (reverse kept) st0) as [[zs st1]| |] eqn:Hres;
    [|done..].
  cbn [mbind outcome_bind]. intros [= <- <-].
  destruct (sweepList_done _ _ _ _ _ Hsw) as (Hevs & Hperm & Hsub & _).
  destruct (IH _ _ _ _ Hres) as (evs1 & -> & Hevs' & Hperm').
  exists (evs0 ++ evs1). split_and!.
  - by rewrite tell_app.
  - eapply evaluations_app.
    + eapply evaluations_weaken; [|done].
      intros m Hm. by rewrite elem_of_reverse in Hm.
    + eapply evaluations_weaken; [|done].
      intros m Hm. rewrite elem_of_reverse in Hm.
      rewrite <- elem_of_reverse.
      eapply elem_of_submseteq; [done|]. by apply sublist_submseteq.
  - rewrite fmap_app, Hperm', fmap_reverse, reverse_Permutation, Hperm.
    by rewrite fmap_reverse, reverse_Permutation.
Qed.

Lemma resolve_store (fuel : nat) (l : list MetricsToCompute)
    (st st' : Store) (ys : list (@Engine.MetricResult num)) :
  resolve fuel l st = Done (ys, st') →
  ∃ evs, ys = tell evs ∧ st' = Engine.storeResults evs st.
Proof.
  intros Hrun. apply resolve_evaluations in Hrun as (evs & -> & Hevs & _).
  exists evs. split; [done|]. by eapply evaluations_store.
Qed.

(** The logs that a resolution leaves. *)
Lemma resolve_logs (fuel : nat) (l : list MetricsToCompute)
    (st st' : Store) (ys : list (@Engine.MetricResult num)) :
  resolve fuel l st = Done (ys, st') →
  Engine.queryCalls st' = Engine.queryCalls st
  ∧ Engine.consoleErrors st' = Engine.consoleErrors st
  ∧ Engine.assignments st' = Engine.assignments st ++ ys.*1.
Proof.
  intros Hrun. apply resolve_store in Hrun as (evs & -> & ->).
  rewrite tell_keys. apply storeResults_logs.
Qed.

Lemma yielded_keys_NoDup (queryEntries : list (string * string)) :
  NoDup queryEntries.*1 →
  NoDup (Engine.yielded (allSettled queryEntries)).*1.
Proof. intros Hnd. eapply sublist_NoDup; [done|apply yielded_sublist]. Qed.

(** C3, as the code has it: for every panel that is computed, the batcher
    is invoked over the panel's dependency identifiers that are keys of the
    query map with a non-empty query text, each listed once, whether or not
    the shared values already hold them; with a ceiling of at least one
    these queries are all executed and every fulfilled result is assigned,
    before the panel's metrics are resolved.  The dependencies are taken
    not to name members of [Object.prototype]. *)
Theorem batcher_runs_panel_dependencies
    (Hmax : (1 ≤ maxConcurrentQueries)%Z) (queries : QueryMap)
    (panel : Panel) :
  (∀ m d, m ∈ metrics panel → d ∈ dependencies m →
     Obj.inherited d = false) →
  ∃ queryEntries,
    queryEntries
    = Obj.entries (Engine.relevantQueries queries (metrics panel))
    ∧ NoDup queryEntries.*1
    ∧ (∀ k q, (k, q) ∈ queryEntries ↔
              (∃ m, m ∈ metrics panel ∧ k ∈ dependencies m)
              ∧ Obj.get queries k = Some q ∧ q ≠ "")
    ∧ ∀ fuel useStream (cache : PanelCache) (st : Store),
        length queryEntries < fuel →
        (useStream = true → Engine.cacheRead cache (title panel) = None) →
        ∃ st1,
          processQueries fuel queryEntries st
          = Done (Engine.yielded (allSettled queryEntries), st1)
          ∧ Engine.queryCalls st1 = Engine.queryCalls st ++ queryEntries.*2
          ∧ processPanel fuel queries useStream panel cache st
            = ('(results, st') ←
                 resolve fuel (metrics panel)
                   (Engine.storeResults
                      (Engine.yielded (allSettled queryEntries)) st1) ;
               Done (Engine.Result (title panel, results),
                     Engine.cacheWrite cache (title panel)
                       (title panel, results), st'))
          ∧ Engine.assignments
              (Engine.storeResults
                 (Engine.yielded (allSettled queryEntries)) st1)
            = Engine.assignments st
              ++ (Engine.yielded (allSettled queryEntries)).*1
          ∧ ∀ k v, (k, v) ∈ Engine.yielded (allSettled queryEntries) →
              Engine.calculatedValues
                (Engine.storeResults
                   (Engine.yielded (allSettled queryEntries)) st1) !! k
              = Some v.
Proof.
  intros Hdeps.
  destruct (relevantQueries_spec queries (metrics panel)) as [Hnd Hin].
  eexists. split; [reflexivity|].
  set (queryEntries :=
         Obj.entries (Engine.relevantQueries queries (metrics panel))).
  assert (Hnd' : NoDup queryEntries.*1) by by apply entries_keys_NoDup.
  split_and!; [done| |].
  - intros k q. unfold queryEntries. rewrite entries_elem_of, Hin. split.
    + intros (? & ? & ? & _). done.
    + intros ((m & Hm & Hk) & ? & ?). split_and!; eauto.
  - intros fuel useStream cache st Hfuel Hmiss.
    exists (Engine.logErrors (Engine.reported (allSettled queryEntries))
              (Engine.logCalls queryEntries.*2 st)).
    pose proof (processQueries_total Hmax fuel queryEntries st Hfuel) as Hq.
    split_and!.
    + exact Hq.
    + done.
    + rewrite processPanel_miss by done. unfold Engine.processCalculations.
      fold queryEntries. by rewrite Hq.
    + by rewrite (proj2 (proj2 (storeResults_logs _ _))).
    + intros k v Hkv. apply storeResults_lookup_value; [| |done].
      * intros ->. apply yielded_fulfilled in Hkv as (q & Hkq & _).
        unfold queryEntries in Hkq.
        apply entries_elem_of, Hin in Hkq as (_ & _ & _ & Hproto).
        done.
      * by apply yielded_keys_NoDup.
Qed.

(** ** The end-to-end example *)

(** C2, as the code has it: for queries [a] and [b] that return 1 and 2
    and one panel "P" with the metric [sum = a + b], the aggregate result
    is the panel "P" with the single entry for [sum], of value 3.  The
    results of the queries are assigned in the shared values, before [sum]
    is, and are not part of the panel's results. *)
Theorem end_to_end_sum (one two three : num) (qa qb : string) (fuel : nat) :
  (1 ≤ maxConcurrentQueries)%Z →
  qa ≠ "" → qb ≠ "" →
  executeQuery qa = Engine.fulfilled one →
  executeQuery qb = Engine.fulfilled two →
  mathEvaluate "a + b" (<["b" := two]> (<["a" := one]> ∅)) = inl three →
  3 ≤ fuel →
  executeDashboard fuel
    (mkDashboard [("a", qa); ("b", qb)] None
       [mkPanel "P" [mkMetric "sum" "a + b" ["a"; "b"]]]) false
  = Done (Engine.Materialized
            [Engine.Result ("P", [("sum", Engine.Number three)])])
  ∧ ∃ g, drain fuel
           (Engine.processPanelResults
              [mkPanel "P" [mkMetric "sum" "a + b" ["a"; "b"]]]
              [("a", qa); ("b", qb)] true)
         = Done ([Engine.Result ("P", [("sum", Engine.Number three)])], g)
         ∧ Engine.assignments (Engine.store g) = ["a"; "b"; "sum"]
         ∧ Engine.calculatedValues (Engine.store g)
           = <["sum" := three]> (<["b" := two]> (<["a" := one]> ∅)).
Proof.
  intros Hmax Hqa Hqb Hone Htwo Hsum Hfuel.
  set (m := mkMetric "sum" "a + b" ["a"; "b"]).
  assert (Hrel : Obj.entries
                   (Engine.relevantQueries [("a", qa); ("b", qb)] [m])
                 = [("a", qa); ("b", qb)]).
  { destruct qa; [done|]. destruct qb; [done|]. reflexivity. }
  assert (Hpanel : ∀ useStream,
    processPanel fuel [("a", qa); ("b", qb)] useStream (mkPanel "P" [m]) ∅
      Engine.emptyStore
    = Done (Engine.Result ("P", [("sum", Engine.Number three)]),
            <["P" := ("P", [("sum", Engine.Number three)])]> ∅,
            Engine.assign "sum" three
              (Engine.assign "b" two
                 (Engine.assign "a" one
                    (Engine.logErrors []
                       (Engine.logCalls [qa; qb] Engine.emptyStore)))))).
  { intros useStream. rewrite processPanel_miss by (by destruct useStream).
    unfold Engine.processCalculations. cbn [metrics title].
    rewrite Hrel, processQueries_total by (simpl; lia).
    unfold Engine.allSettled. cbn [fmap list_fmap]. rewrite Hone, Htwo.
    cbn [mbind outcome_bind Engine.yielded Engine.reported omap list_omap
         Engine.storeResults foldl app].
    destruct fuel as [|[|fuel']]; [lia..|].
    set (st := Engine.assign "b" two _).
    assert (Hel : Engine.eligible st m = true).
    { apply eligible_spec. intros d Hd. subst st.
      apply elem_of_cons in Hd as [->|Hd].
      - rewrite assign_lookup_ne, assign_lookup_eq by done. eauto.
      - apply list_elem_of_singleton in Hd as ->.
        rewrite assign_lookup_eq by done. eauto. }
    assert (Hth : Engine.throwsAt st m = false).
    { apply throwsAt_unshadowed, shadowed_false. subst st.
      by rewrite !assign_lookup_ne. }
    change (resolve (S (S fuel')) [m] st) with
      ('(ys, pending', st') ← sweep 1 [m] st ;
       '(zs, st'') ← resolve (S fuel') pending' st' ;
       Done (ys ++ zs, st'')).
    cbn [Engine.sweep lookup list_lookup]. rewrite Hth, Hel.
    replace (mathEvaluate (expression m) (Engine.calculatedValues st))
      with (@inl num string three) by (by rewrite <- Hsum).
    reflexivity. }
  split.
  - unfold Engine.executeDashboard, Engine.drain, Engine.processPanelResults.
    cbn [Engine.remaining panels queries length].
    rewrite drainN_cons, Hpanel. cbn [mbind outcome_bind].
    by rewrite drainN_nil.
  - eexists. unfold Engine.drain, Engine.processPanelResults.
    cbn [Engine.remaining length].
    rewrite drainN_cons, Hpanel. cbn [mbind outcome_bind].
    rewrite drainN_nil. cbn [mbind outcome_bind]. done.
Qed.

End engine_facts.

(** * The engine on concrete dashboards *)

(** ** The stand-in evaluator *)





(** ** Witnesses and counterexamples *)

Lemma ceiling_below_one_witness :
  Engine.processQueries Fixture.executeQuery 0 5 Fixture.queriesAB
    Engine.emptyStore = OutOfFuel
  ∧ Engine.executeDashboard Fixture.executeQuery 0 Fixture.sumEvaluate 5
      Fixture.sumDashboard false = OutOfFuel.
Proof.
  destruct (ceiling_below_one_never_terminates Fixture.executeQuery 0
              Fixture.sumEvaluate ltac:(lia) Fixture.queriesAB ltac:(done))
    as (_ & Hq & Hd).
  split; [apply Hq|].
  by destruct (Hd 5 Fixture.sumDashboard _ _ eq_refl eq_refl) as [Hrun _].
Defined.

Lemma failing_query_witness :
  ∃ ys st',
    Engine.processQueries Fixture.executeQuery Fixture.defaultCeiling 5
      Fixture.queriesAC Engine.emptyStore = Done (ys, st')
    ∧ ("a", 1%Z) ∈ ys
    ∧ "c" ∉ ys.*1.
Proof.
  destruct (failing_query_is_skipped Fixture.executeQuery
              Fixture.defaultCeiling Fixture.sumEvaluate ltac:(done)
              Fixture.queriesAC Engine.emptyStore)
    as (ys & st' & Hrun & _ & _ & Hok & Hfail & _).
  { vm_compute. apply NoDup_cons. split; [|apply NoDup_singleton].
    intros Hin. apply list_elem_of_singleton in Hin. discriminate. }
  exists ys, st'. split_and!.
  - apply Hrun. simpl. lia.
  - apply (Hok "a" "qa"); [by left|reflexivity].
  - apply (Hfail "c" "qc" "no such table"); [|reflexivity].
    right. by left.
Defined.

Lemma yields_follow_input_order_witness :
  ∃ ys st',
    Engine.processQueries Fixture.executeQuery Fixture.defaultCeiling 5
      Fixture.queriesAB Engine.emptyStore = Done (ys, st')
    ∧ ys = Engine.yielded
             (Engine.allSettled Fixture.executeQuery Fixture.queriesAB)
    ∧ ys.*1 `sublist_of` Fixture.queriesAB.*1.
Proof.
  apply (yields_follow_input_order Fixture.executeQuery
           Fixture.defaultCeiling ltac:(done) Fixture.queriesAB
           Engine.emptyStore 5).
  simpl. lia.
Defined.

(** C9 does not hold as stated: [qa] takes longer than [qb], so the
    executions complete in the order [b], [a], and the batcher yields [a]
    before [b]. *)
Lemma completion_order_counterexample :
  Engine.processQueries Fixture.executeQuery Fixture.defaultCeiling 5
    Fixture.queriesAB Engine.emptyStore
  = Done ([("a", 1%Z); ("b", 2%Z)],
          Engine.logErrors [] (Engine.logCalls ["qa"; "qb"]
                                 Engine.emptyStore))
  ∧ yieldsInCompletionOrder Fixture.executeQuery Fixture.latency
      Fixture.queriesAB
    = [("b", 2%Z); ("a", 1%Z)].
Proof. split; reflexivity. Qed.




(** A dashboard whose first panel is stuck once its queries have settled
    is never computed, in either mode. *)
Lemma stuck_first_panel {num : Type}
    (executeQuery : string → Engine.settled num) (maxConcurrentQueries : Z)
    (mathEvaluate : string → gmap string num → num + string) (fuel : nat)
    (dashboard : DashboardConfig) (panel : Panel) (rest : list Panel)
    (queryEntries : list (string * string)) (st : Engine.Store num) :
  panels dashboard = panel :: rest →
  Obj.inherited (title panel) = false →
  metrics panel ≠ [] →
  queryEntries
  = Obj.entries (Engine.relevantQueries (queries dashboard) (metrics panel)) →
  st = Engine.storeResults
         (Engine.yielded (Engine.allSettled executeQuery queryEntries))
         (Engine.logErrors
            (Engine.reported (Engine.allSettled executeQuery queryEntries))
            (Engine.logCalls queryEntries.*2 Engine.emptyStore)) →
  Engine.shadowed st = false →
  (∀ m, m ∈ metrics panel → Engine.eligible st m = false) →
  ∀ useStream,
    Engine.drain executeQuery maxConcurrentQueries mathEvaluate fuel
      (Engine.processPanelResults (panels dashboard) (queries dashboard)
         useStream) = OutOfFuel.
Proof.
  intros Hpanels Htitle Hne -> -> Hst Hstuck useStream.
  unfold Engine.drain, Engine.processPanelResults.
  cbn [Engine.remaining]. rewrite Hpanels. cbn [length].
  rewrite drainN_cons, processPanel_miss
    by (intros _; by apply cacheRead_empty).
  unfold Engine.processCalculations.
  destruct (Engine.processQueries executeQuery maxConcurrentQueries fuel
              _ Engine.emptyStore) as [[qs st1]|e|] eqn:Hq.
  - apply processQueries_done in Hq as [-> ->].
    cbn [mbind outcome_bind]. by rewrite resolve_stuck.
  - by apply processQueries_no_throw in Hq.
  - done.
Qed.

(** C1: the resolution loop has no check for a sweep that resolves
    nothing.  On a metric that depends on an identifier that is neither a
    query nor a metric, on two metrics that depend on each other, and on a
    metric that depends on a query whose execution fails, no amount of fuel
    is enough: the aggregate call and the first [next()] of the stream
    never return, and nothing is thrown. *)
Theorem unresolvable_dependency_loops {num : Type}
    (executeQuery : string → Engine.settled num) (maxConcurrentQueries : Z)
    (mathEvaluate : string → gmap string num → num + string) (fuel : nat) :
  neverReturns executeQuery maxConcurrentQueries mathEvaluate fuel
    Fixture.stuckDashboard
  ∧ neverReturns executeQuery maxConcurrentQueries mathEvaluate fuel
      Fixture.cycleDashboard
  ∧ neverReturns Fixture.executeQuery maxConcurrentQueries
      Fixture.sumEvaluate fuel Fixture.starvedDashboard.
Proof.
  assert (Hloop : ∀ {T : Type} (ex : string → Engine.settled T) ev dashboard,
    (∀ useStream,
       Engine.drain ex maxConcurrentQueries ev fuel
         (Engine.processPanelResults (panels dashboard) (queries dashboard)
            useStream) = OutOfFuel) →
    neverReturns ex maxConcurrentQueries ev fuel dashboard).
  { intros T ex ev dashboard Hdrain. unfold neverReturns.
    unfold Engine.executeDashboard. by rewrite !Hdrain. }
  split_and!; apply Hloop; intros useStream;
    (eapply stuck_first_panel;
       [reflexivity|reflexivity|done|reflexivity|reflexivity|reflexivity|]);
    intros m Hm.
  - by apply list_elem_of_singleton in Hm as ->.
  - apply elem_of_cons in Hm as [->|Hm]; [done|].
    by apply list_elem_of_singleton in Hm as ->.
  - by apply list_elem_of_singleton in Hm as ->.
Qed.

Lemma end_to_end_sum_witness :
  Engine.executeDashboard Fixture.executeQuery Fixture.defaultCeiling
    Fixture.sumEvaluate 5 Fixture.sumDashboard false
  = Done (Engine.Materialized
            [Engine.Result ("P", [("sum", Engine.Number 3%Z)])]).
Proof.
  apply (end_to_end_sum Fixture.executeQuery Fixture.defaultCeiling
           Fixture.sumEvaluate 1%Z 2%Z 3%Z "qa" "qb" 5);
    [done|done|done|reflexivity|reflexivity|reflexivity|lia].
Defined.

(** C2 does not hold as stated: the results of panel "P" hold the entry
    for [sum] only, and no entry for the queries [a] and [b]. *)
Lemma end_to_end_counterexample :
  Engine.executeDashboard Fixture.executeQuery Fixture.defaultCeiling
    Fixture.sumEvaluate 5 Fixture.sumDashboard false
  = Done (Engine.Materialized
            [Engine.Result ("P", [("sum", Engine.Number 3%Z)])])
  ∧ (("a", Engine.Number 1%Z) ∉ [("sum", Engine.Number 3%Z)])
  ∧ (("b", Engine.Number 2%Z) ∉ [("sum", Engine.Number 3%Z)]).
Proof.
  split_and!; [reflexivity| |];
    intros Hin; apply list_elem_of_singleton in Hin; discriminate.
Qed.

Lemma batcher_runs_panel_dependencies_witness :
  ∃ st1 : Engine.Store Z,
    Engine.processQueries Fixture.executeQuery Fixture.defaultCeiling 5
      [("a", "qa")] Fixture.leaves
    = Done ([("a", 1%Z)], st1)
    ∧ Engine.queryCalls st1 = ["qa"]
    ∧ Engine.assignments (Engine.storeResults [("a", 1%Z)] st1)
      = ["a"; "b"; "a"].
Proof.
  destruct (batcher_runs_panel_dependencies Fixture.executeQuery
              Fixture.defaultCeiling Fixture.sumEvaluate ltac:(done)
              Fixture.queriesAB (mkPanel "Q" [mkMetric "y" "a" ["a"]]))
    as (queryEntries & -> & _ & _ & Hrun).
  { intros m d Hm Hd. apply list_elem_of_singleton in Hm as ->.
    by apply list_elem_of_singleton in Hd as ->. }
  destruct (Hrun 5 false ∅ Fixture.leaves) as (st1 & Hq & Hcalls & _ & Ha & _).
  { vm_compute. lia. }
  { done. }
  exists st1. split_and!; [exact Hq|exact Hcalls|exact Ha].
Defined.

(** C3 does not hold as stated: the panels "P" and "Q" both depend on the
    query [a]; the query is executed for each of them and [a] is assigned
    twice in the shared values. *)
Lemma shared_query_counterexample :
  match Engine.drain Fixture.executeQuery Fixture.defaultCeiling
          Fixture.sumEvaluate 5
          (Engine.processPanelResults (panels Fixture.sharedDashboard)
             (queries Fixture.sharedDashboard) false) with
  | Done (rs, g) =>
      rs = [Engine.Result ("P", [("x", Engine.Number 1%Z)]);
            Engine.Result ("Q", [("y", Engine.Number 1%Z)])]
      ∧ Engine.queryCalls (Engine.store g) = ["qa"; "qa"]
      ∧ Engine.assignments (Engine.store g) = ["a"; "x"; "a"; "y"]
      ∧ ¬ NoDup (Engine.assignments (Engine.store g))
  | _ => False
  end.
Proof.
  vm_compute. split_and!; [done..|].
  intros Hnd. apply NoDup_cons in Hnd as [Hin _]. apply Hin.
  right. by left.
Qed.



Lemma repeated_title_witness :
  ∃ g r g',
    Engine.remaining g = [mkPanel "P" [mkMetric "y" "b" ["b"]]]
    ∧ Engine.next Fixture.executeQuery Fixture.defaultCeiling
        Fixture.sumEvaluate 5 g = Done (Some r, g')
    ∧ r = Engine.Result ("P", [("x", Engine.Number 1%Z)])
    ∧ Engine.store g' = Engine.store g.
Proof.
  destruct (Engine.next Fixture.executeQuery Fixture.defaultCeiling
              Fixture.sumEvaluate 5
              (Engine.processPanelResults (panels Fixture.twinDashboard)
                 (queries Fixture.twinDashboard) true))
    as [[[r1|] g1]| |] eqn:Hnext; try (vm_compute in Hnext; discriminate).
  assert (Hr1 : r1 = Engine.Result ("P", [("x", Engine.Number 1%Z)])).
  { vm_compute in Hnext. by injection Hnext as <- _. }
  assert (Hrem : Engine.remaining g1 = [mkPanel "P" [mkMetric "y" "b" ["b"]]]).
  { vm_compute in Hnext. by injection Hnext as _ <-. }
  destruct (repeated_title_served_from_cache Fixture.executeQuery
              Fixture.defaultCeiling Fixture.sumEvaluate
              (panels Fixture.twinDashboard) (queries Fixture.twinDashboard)
              ([] ++ [r1]) g1 (mkPanel "P" [mkMetric "y" "b" ["b"]]) [] 5)
    as (r & g' & Hhit & Hin & _ & _ & _ & _ & Hstore & _).
  - eapply pulled_next; [apply pulled_nil|exact Hnext].
  - exact Hrem.
  - rewrite Hr1. by left.
  - exists g1, r, g'. split_and!; [done..| |done].
    apply list_elem_of_singleton in Hin. by rewrite Hin, Hr1.
Defined.

(** * Properties of the parser *)

Section parser_facts.

Context {value : Type}.
Variable toString : value → string.
Variable memberText : string → string.
Variable variables : gmap string (option value).

Abbreviation replaceVariables := (Parser.replaceVariables toString memberText).
Abbreviation exec := (Parser.exec toString memberText).

Abbreviation follows := (Parser.follows variables).

Lemma firstMissing_app (l1 l2 : list string) :
  Parser.firstMissing variables (l1 ++ l2)
  = match Parser.firstMissing variables l1 with
    | Some name => Some name
    | None => Parser.firstMissing variables l2
    end.
Proof.
  unfold Parser.firstMissing. rewrite filter_app.
  by destruct (filter _ l1).
Qed.

Lemma firstMissing_None (names : list string) :
  Parser.firstMissing variables names = None ↔
  ∀ name, name ∈ names → Parser.undefinedAt variables name = false.
Proof.
  unfold Parser.firstMissing. split.
  - intros Hhead name Hname.
    destruct (Parser.undefinedAt variables name) eqn:Hv; [|done].
    assert (Hin : name ∈ filter (λ n, Parser.undefinedAt variables n = true)
                           names)
      by by apply list_elem_of_filter.
    destruct (filter _ names); [by apply elem_of_nil in Hin|done].
  - intros Hall.
    destruct (filter _ names) as [|name l] eqn:Hf; [done|].
    assert (Hin : name ∈ filter (λ n, Parser.undefinedAt variables n = true)
                           names)
      by (rewrite Hf; by left).
    apply list_elem_of_filter in Hin as [Hnone Hin].
    rewrite (Hall name Hin) in Hnone. done.
Qed.

Lemma firstMissing_first (before after : list string) (name : string) :
  (∀ k, k ∈ before → Parser.undefinedAt variables k = false) →
  Parser.undefinedAt variables name = true →
  Parser.firstMissing variables (before ++ name :: after) = Some name.
Proof.
  intros Hbefore Hname. rewrite firstMissing_app.
  rewrite (proj2 (firstMissing_None before) Hbefore).
  unfold Parser.firstMissing. rewrite filter_cons. by rewrite decide_True.
Qed.

Lemma follows_Ok {B : Type} (y : B) : follows [] (Parser.Ok y).
Proof. unfold Parser.follows. simpl. eauto. Qed.

Lemma follows_bind {A B : Type} (l l1 l2 : list string)
    (r : Parser.attempt A) (k : A → Parser.attempt B) :
  follows l1 r → (∀ a, follows l2 (k a)) → l = l1 ++ l2 →
  follows l (r ≫= k).
Proof.
  intros Hr Hk ->. unfold Parser.follows in *. rewrite firstMissing_app.
  destruct (Parser.firstMissing variables l1) as [name|].
  - by rewrite Hr.
  - destruct Hr as [a ->]. apply Hk.
Qed.

(** A step that cannot fail after a computation. *)
Lemma follows_then {A B : Type} (l : list string) (r : Parser.attempt A)
    (f : A → B) :
  follows l r → follows l (r ≫= λ a, Parser.Ok (f a)).
Proof.
  intros Hr. eapply follows_bind; [exact Hr| |by rewrite app_nil_r].
  intros a. apply follows_Ok.
Qed.

Lemma follows_replacer (key : string) :
  follows [key] (Parser.replacer toString memberText variables key).
Proof.
  unfold Parser.follows, Parser.firstMissing, Parser.replacer,
    Parser.undefinedAt.
  rewrite filter_cons, filter_nil.
  destruct (variables !! key) as [[v|]|] eqn:Hkey.
  - rewrite decide_False by done. simpl. eauto.
  - by rewrite decide_True.
  - destruct (Obj.inherited key); simpl; eauto.
Qed.

Lemma follows_replacePieces (ps : list Parser.piece) :
  follows (omap (λ p, match p with
                      | Parser.Token key => Some key
                      | Parser.Text _ => None
                      end) ps)
          (Parser.replacePieces toString memberText variables ps).
Proof.
  induction ps as [|[c|key] ps IH].
  - apply follows_Ok.
  - apply (follows_then _ _ (String c) IH).
  - eapply follows_bind; [apply follows_replacer| |done].
    intros v. apply (follows_then _ _ (String.append v) IH).
Qed.

Lemma follows_replaceVariables (template : string) :
  follows (Parser.tokens template) (replaceVariables template variables).
Proof. apply follows_replacePieces. Qed.

Lemma follows_mapA {A B : Type} (f : A → Parser.attempt B)
    (names : A → list string) (l : list A) :
  (∀ x, follows (names x) (f x)) →
  follows (l ≫= names) (Parser.mapA f l).
Proof.
  intros Hf. induction l as [|x l IH].
  - apply follows_Ok.
  - eapply follows_bind; [apply Hf| |done].
    intros y. apply (follows_then _ _ (cons y) IH).
Qed.

Lemma follows_parsePanel (panel : Panel) :
  follows ((expression <$> metrics panel) ≫= Parser.tokens)
          (Parser.parsePanel toString memberText variables panel).
Proof.
  unfold Parser.parsePanel. apply (follows_then _ _ (mkPanel (title panel))).
  rewrite list_fmap_bind. apply follows_mapA. intros m.
  unfold Parser.parseMetric.
  apply (follows_then _ _ (λ e, mkMetric (id m) e (dependencies m))).
  apply follows_replaceVariables.
Qed.

Lemma list_bind_assoc {A B C : Type} (f : A → list B) (g : B → list C)
    (l : list A) :
  (l ≫= f) ≫= g = l ≫= (λ x, f x ≫= g).
Proof.
  induction l as [|x l IH]; [done|].
  change ((x :: l) ≫= f) with (f x ++ (l ≫= f)).
  change ((x :: l) ≫= (λ x, f x ≫= g))
    with ((f x ≫= g) ++ (l ≫= (λ x, f x ≫= g))).
  by rewrite bind_app, IH.
Qed.

(** Once the declared names are all found, [exec] fails at the first
    token that has no value, and succeeds when there is none. *)
Lemma follows_exec (template : DashboardConfig) :
  Parser.missingVars template variables = [] →
  follows (Parser.templateTokens template) (exec template variables).
Proof.
  intros Hdeclared. unfold Parser.exec. rewrite Hdeclared.
  rewrite bool_decide_eq_false_2 by (simpl; lia).
  unfold Parser.templateTokens, Parser.templateStrings.
  eapply follows_bind; [| |apply bind_app].
  - rewrite list_fmap_bind. apply follows_mapA. intros [key query].
    apply (follows_then _ _ (pair key)). apply follows_replaceVariables.
  - intros parsedQueries.
    apply (follows_then _ _
             (mkDashboard parsedQueries (Parser.declaredVariables template))).
    rewrite list_bind_assoc. apply follows_mapA. apply follows_parsePanel.
Qed.

(** For names that no object inherits, [name in variables] asks for a key
    of the mapping. *)
Lemma filter_has_absent (names : list string) :
  (∀ name, name ∈ names → Obj.inherited name = false) →
  filter (λ name, Parser.has variables name = false) names
  = filter (λ name, variables !! name = None) names.
Proof.
  induction names as [|name names IH]; intros Hnames; [done|].
  rewrite !filter_cons, IH by (intros n Hn; apply Hnames; by right).
  unfold Parser.has. rewrite (Hnames name) by by left.
  rewrite orb_false_r.
  destruct (variables !! name) as [v|] eqn:Hv.
  - rewrite bool_decide_eq_true_2 by eauto.
    by rewrite !decide_False.
  - rewrite bool_decide_eq_false_2 by (by intros [? ?]).
    by rewrite !decide_True.
Qed.

Lemma missingVars_absent (template : DashboardConfig) :
  (∀ name, name ∈ default [] (Parser.declaredVariables template) →
     Obj.inherited name = false) →
  Parser.missingVars template variables = Parser.absent variables template.
Proof.
  unfold Parser.missingVars, Parser.absent.
  destruct (Parser.declaredVariables template) as [declared|]; [|done].
  apply filter_has_absent.
Qed.

(** C6, as the code has it, for declared names and token names that do not
    name members of [Object.prototype]: [exec] fails with one message that
    lists all the declared names that are not keys of the mapping, whenever
    there is one; otherwise it fails with the name of the first token that
    has no value, its name not being a key or being bound to [undefined];
    and it succeeds for every mapping whose keys include the declared names
    and that has a value for the names of all tokens of the query texts and
    metric expressions. *)
Theorem exec_reports_missing_variables (template : DashboardConfig) :
  (∀ name,
     name ∈ default [] (Parser.declaredVariables template)
              ++ Parser.templateTokens template →
     Obj.inherited name = false) →
  (Parser.absent variables template ≠ [] →
   exec template variables
   = Parser.Raise
       ("Missing required variables: "
        +:+ String.concat ", " (Parser.absent variables template)))
  ∧ (Parser.absent variables template = [] →
     ∀ before name after,
       Parser.templateTokens template = before ++ name :: after →
       (∀ key, key ∈ before → ∃ v, variables !! key = Some (Some v)) →
       variables !! name = None ∨ variables !! name = Some None →
       exec template variables
       = Parser.Raise ("Missing required variable: " +:+ name))
  ∧ (Parser.absent variables template = [] →
     (∀ name, name ∈ Parser.templateTokens template →
        ∃ v, variables !! name = Some (Some v)) →
     ∃ data, exec template variables = Parser.Ok data).
Proof.
  intros Hnames.
  assert (Hmissing : Parser.missingVars template variables
                     = Parser.absent variables template).
  { apply missingVars_absent. intros name Hname.
    apply Hnames, elem_of_app. by left. }
  assert (Hvalue : ∀ key v, variables !! key = Some (Some v) →
            Parser.undefinedAt variables key = false).
  { intros key v Hkey. unfold Parser.undefinedAt. by rewrite Hkey. }
  split_and!.
  - intros Habsent. unfold Parser.exec. rewrite Hmissing.
    rewrite bool_decide_eq_true_2; [done|].
    destruct (Parser.absent variables template); [done|simpl; lia].
  - intros Habsent before name after Htokens Hbefore Hname.
    rewrite <- Hmissing in Habsent.
    pose proof (follows_exec template Habsent) as Hexec.
    unfold Parser.follows in Hexec. rewrite Htokens in Hexec.
    rewrite firstMissing_first in Hexec; [done| |].
    + intros key Hkey. destruct (Hbefore key Hkey) as [v Hv]. eauto.
    + unfold Parser.undefinedAt. destruct Hname as [->| ->]; [|done].
      rewrite Hnames; [done|]. apply elem_of_app. right.
      rewrite Htokens. apply elem_of_app. right. by left.
  - intros Habsent Hall. rewrite <- Hmissing in Habsent.
    pose proof (follows_exec template Habsent) as Hexec.
    unfold Parser.follows in Hexec.
    rewrite (proj2 (firstMissing_None _)) in Hexec; [done|].
    intros name Hname. destruct (Hall name Hname) as [v Hv]. eauto.
Qed.

End parser_facts.

(** ** The parser on concrete templates *)

Lemma exec_reports_missing_variables_witness :
  Parser.exec Fixture.toString Fixture.memberText Fixture.declaredTemplate
    {["y" := Some "2"]}
  = Parser.Raise "Missing required variables: x, z"
  ∧ Parser.exec Fixture.toString Fixture.memberText Fixture.tokenTemplate ∅
    = Parser.Raise "Missing required variable: x"
  ∧ ∃ data,
      Parser.exec Fixture.toString Fixture.memberText
        Fixture.declaredTemplate
        {["x" := Some "1"; "y" := Some "2"; "z" := Some "3"]}
      = Parser.Ok data.
Proof.
  assert (Hdeclared : ∀ name,
            name ∈ default [] (Parser.declaredVariables
                                 Fixture.declaredTemplate)
                     ++ Parser.templateTokens Fixture.declaredTemplate →
            Obj.inherited name = false).
  { intros name Hname. vm_compute in Hname.
    repeat (apply elem_of_cons in Hname as [->|Hname]; [done|]).
    by apply elem_of_nil in Hname. }
  assert (Htoken : ∀ name,
            name ∈ default [] (Parser.declaredVariables Fixture.tokenTemplate)
                     ++ Parser.templateTokens Fixture.tokenTemplate →
            Obj.inherited name = false).
  { intros name Hname. vm_compute in Hname.
    repeat (apply elem_of_cons in Hname as [->|Hname]; [done|]).
    by apply elem_of_nil in Hname. }
  split_and!.
  - destruct (exec_reports_missing_variables Fixture.toString
                Fixture.memberText {["y" := Some "2"]}
                Fixture.declaredTemplate Hdeclared)
      as (Hmissing & _).
    rewrite Hmissing; [reflexivity|]. vm_compute. discriminate.
  - destruct (exec_reports_missing_variables Fixture.toString
                Fixture.memberText ∅ Fixture.tokenTemplate Htoken)
      as (_ & Hfirst & _).
    apply (Hfirst eq_refl [] "x" []); [reflexivity| |by left].
    intros key Hkey. by apply elem_of_nil in Hkey.
  - destruct (exec_reports_missing_variables Fixture.toString
                Fixture.memberText
                {["x" := Some "1"; "y" := Some "2"; "z" := Some "3"]}
                Fixture.declaredTemplate Hdeclared)
      as (_ & _ & Hok).
    apply Hok; [reflexivity|].
    intros name Hname. vm_compute in Hname.
    apply elem_of_cons in Hname as [->|Hname]; [by eexists|].
    apply list_elem_of_singleton in Hname as ->. by eexists.
Defined.

(** C6 does not hold as stated: the template declares no variable, so the
    empty mapping supplies every declared name, and [exec] fails on the
    token [x] of the query text. *)
Lemma undeclared_token_counterexample :
  Parser.declaredVariables Fixture.tokenTemplate = Some []
  ∧ Parser.missingVars Fixture.tokenTemplate
      (∅ : gmap string (option string)) = []
  ∧ Parser.exec Fixture.toString Fixture.memberText Fixture.tokenTemplate ∅
    = Parser.Raise "Missing required variable: x".
Proof. split_and!; reflexivity. Qed.

(** * More about the parser *)

(** ** The scan *)

Lemma wordPrefix_spec (s w r : string) :
  Parser.wordPrefix s = (w, r) →
  s = w +:+ r ∧ Parser.wordString w = true.
Proof.
  revert w r. induction s as [|c s IH]; intros w r; simpl.
  - by intros [= <- <-].
  - destruct (Parser.isWord c) eqn:Hc.
    + destruct (Parser.wordPrefix s) as [w' r'] eqn:Hs.
      intros [= <- <-]. destruct (IH w' r' eq_refl) as [-> Hw].
      split; [done|]. simpl. by rewrite Hc.
    + by intros [= <- <-].
Qed.

(** A match is the text of a token whose key is a non-empty string of
    word characters. *)
(** Case analysis on a character that a match compares with a literal:
    all cases but the literal are closed. *)
Ltac literal c :=
  destruct c as [[] [] [] [] [] [] [] []]; try (intros; discriminate).

Lemma matchToken_spec (s key : string) :
  Parser.matchToken s = Some key →
  key ≠ "" ∧ Parser.wordString key = true
  ∧ ∃ rest, s = "{{" +:+ key +:+ "}}" +:+ rest.
Proof.
  unfold Parser.matchToken.
  destruct s as [|c1 s0]; [done|]. destruct s0 as [|c2 s1].
  { literal c1. }
  literal c1. literal c2.
  destruct (Parser.wordPrefix s1) as [w r] eqn:Hw.
  apply wordPrefix_spec in Hw as [-> Hw].
  destruct w as [|c w]; [done|].
  destruct r as [|d1 r]; [done|]. destruct r as [|d2 r].
  { literal d1. }
  literal d1. literal d2.
  intros [= <-]. split_and!; [done..|]. by exists r.
Qed.

Lemma string_length_app (s1 s2 : string) :
  String.length (s1 +:+ s2) = String.length s1 + String.length s2.
Proof. induction s1 as [|c s1 IH]; [done|]. simpl. by rewrite IH. Qed.

Lemma string_app_assoc (s1 s2 s3 : string) :
  (s1 +:+ s2) +:+ s3 = s1 +:+ s2 +:+ s3.
Proof.
  induction s1 as [|c s1 IH]; [done|].
  change (String c ((s1 +:+ s2) +:+ s3) = String c (s1 +:+ s2 +:+ s3)).
  by rewrite IH.
Qed.

(** The characters of a match are not scanned again. *)
Lemma scan_skip (pre rest : string) :
  Parser.scan (String.length pre) (pre +:+ rest) = Parser.scan 0 rest.
Proof. induction pre as [|c pre IH]; [done|]. exact IH. Qed.

(** The scan loses nothing: the pieces, put back one after the other, are
    the template. *)
Lemma render_scan (s : string) : Parser.render (Parser.scan 0 s) = s.
Proof.
  remember (String.length s) as n eqn:Hn. revert s Hn.
  induction n as [n IH] using lt_wf_ind. intros s Hn.
  destruct s as [|c s']; [done|].
  change (Parser.scan 0 (String c s')) with
    (match Parser.matchToken (String c s') with
     | Some key => Parser.Token key
                   :: Parser.scan (String.length key + 3) s'
     | None => Parser.Text c :: Parser.scan 0 s'
     end).
  destruct (Parser.matchToken (String c s')) as [key|] eqn:Hm.
  - apply matchToken_spec in Hm as (_ & _ & rest & Hs).
    change ("{{" +:+ key +:+ "}}" +:+ rest)
      with (String "{" ("{" +:+ key +:+ "}}" +:+ rest)) in Hs.
    injection Hs as -> ->.
    assert (Hlen : String.length key + 3
                   = String.length ("{" +:+ key +:+ "}}")).
    { rewrite !string_length_app. simpl. lia. }
    rewrite Hlen, <- !string_app_assoc, scan_skip. simpl Parser.render.
    rewrite (IH (String.length rest)); [reflexivity| |done].
    rewrite Hn. simpl. rewrite !string_length_app. lia.
  - simpl. rewrite (IH (String.length s')); [done| |done].
    rewrite Hn. simpl. lia.
Qed.

Lemma tokens_scan_words (skip : nat) (s key : string) :
  Parser.Token key ∈ Parser.scan skip s →
  key ≠ "" ∧ Parser.wordString key = true.
Proof.
  revert skip. induction s as [|c s IH]; intros skip; cbn [Parser.scan].
  - intros Hin. by apply elem_of_nil in Hin.
  - destruct skip as [|skip]; [|apply IH].
    destruct (Parser.matchToken (String c s)) as [k|] eqn:Hm.
    + intros Hin. apply elem_of_cons in Hin as [[= ->]|Hin].
      * by apply matchToken_spec in Hm as (? & ? & _).
      * by eapply IH.
    + intros Hin. apply elem_of_cons in Hin as [?|Hin]; [done|].
      by eapply IH.
Qed.

(** ** Substitution *)

Section parser_more.

Context {value : Type}.
Variable toString : value → string.
Variable memberText : string → string.

Lemma token_piece (template key : string) :
  Parser.Token key ∈ Parser.scan 0 template ↔ key ∈ Parser.tokens template.
Proof.
  unfold Parser.tokens. rewrite list_elem_of_omap. split.
  - intros Hin. by exists (Parser.Token key).
  - intros ([c|k] & Hin & Hk); [done|]. by injection Hk as ->.
Qed.

Lemma replacePieces_render (variables : gmap string (option value))
    (ps : list Parser.piece) :
  (∀ key, Parser.Token key ∈ ps →
     ∃ v, variables !! key = Some (Some v)
          ∧ toString v = "{{" +:+ key +:+ "}}") →
  Parser.replacePieces toString memberText variables ps = Parser.Ok (Parser.render ps).
Proof.
  induction ps as [|[c|key] ps IH]; intros Hps; [done| |].
  - cbn [Parser.replacePieces]. rewrite IH; [done|].
    intros key Hkey. apply Hps. by right.
  - cbn [Parser.replacePieces]. unfold Parser.replacer.
    destruct (Hps key) as (v & -> & Hv); [by left|].
    cbn [mbind Parser.attempt_bind]. rewrite IH.
    + cbn [mbind Parser.attempt_bind]. by rewrite Hv.
    + intros k Hk. apply Hps. by right.
Qed.

Lemma replacePieces_agree (variables1 variables2 : gmap string (option value))
    (ps : list Parser.piece) :
  (∀ key, Parser.Token key ∈ ps →
     variables1 !! key = variables2 !! key) →
  Parser.replacePieces toString memberText variables1 ps
  = Parser.replacePieces toString memberText variables2 ps.
Proof.
  induction ps as [|[c|key] ps IH]; intros Hps; [done| |].
  - cbn [Parser.replacePieces]. rewrite IH; [done|].
    intros key Hkey. apply Hps. by right.
  - cbn [Parser.replacePieces]. unfold Parser.replacer.
    rewrite (Hps key) by by left. rewrite IH; [done|].
    intros k Hk. apply Hps. by right.
Qed.

Lemma mapA_Ok {A B : Type} (f : A → Parser.attempt B) (l : list A)
    (ys : list B) :
  Parser.mapA f l = Parser.Ok ys → Forall2 (λ x y, f x = Parser.Ok y) l ys.
Proof.
  revert ys. induction l as [|x l IH]; intros ys; simpl.
  - intros [= <-]. constructor.
  - destruct (f x) as [y|] eqn:Hx; [|done]. simpl.
    destruct (Parser.mapA f l) as [ys'|]; [|done]. simpl.
    intros [= <-]. constructor; [done|]. by apply IH.
Qed.

Lemma mapA_agree {A B : Type} (f g : A → Parser.attempt B) (l : list A) :
  (∀ x, x ∈ l → f x = g x) → Parser.mapA f l = Parser.mapA g l.
Proof.
  induction l as [|x l IH]; intros Hfg; [done|]. simpl.
  rewrite (Hfg x) by by left. rewrite IH; [done|].
  intros y Hy. apply Hfg. by right.
Qed.

Lemma mapA_same {A : Type} (f : A → Parser.attempt A) (l : list A) :
  (∀ x, x ∈ l → f x = Parser.Ok x) → Parser.mapA f l = Parser.Ok l.
Proof.
  induction l as [|x l IH]; intros Hf; [done|]. simpl.
  rewrite (Hf x) by by left. simpl. rewrite IH; [done|].
  intros y Hy. apply Hf. by right.
Qed.

Lemma bind_nil_inv {A B : Type} (f : A → list B) (l : list A) (x : A) :
  l ≫= f = [] → x ∈ l → f x = [].
Proof.
  induction l as [|y l IH]; intros Hnil Hx.
  - by apply elem_of_nil in Hx.
  - change ((y :: l) ≫= f) with (f y ++ (l ≫= f)) in Hnil.
    apply app_eq_nil in Hnil as [Hy Hl].
    apply elem_of_cons in Hx as [->|Hx]; [done|]. by apply IH.
Qed.

Lemma filter_missing_agree (variables1 variables2 : gmap string (option value))
    (names : list string) :
  (∀ name, name ∈ names → variables1 !! name = variables2 !! name) →
  filter (λ name, Parser.has variables1 name = false) names
  = filter (λ name, Parser.has variables2 name = false) names.
Proof.
  induction names as [|name names IH]; intros Hagree; [done|].
  assert (Hhas : Parser.has variables1 name = Parser.has variables2 name).
  { unfold Parser.has. by rewrite (Hagree name) by by left. }
  rewrite !filter_cons, Hhas.
  rewrite IH; [done|]. intros n Hn. apply Hagree. by right.
Qed.

Lemma replaceVariables_token_free (variables : gmap string (option value))
    (template : string) :
  Parser.tokens template = [] →
  Parser.replaceVariables toString memberText template variables = Parser.Ok template.
Proof.
  intros Hnone. unfold Parser.replaceVariables.
  rewrite replacePieces_render; [by rewrite render_scan|].
  intros key Hkey. apply token_piece in Hkey. rewrite Hnone in Hkey.
  by apply elem_of_nil in Hkey.
Qed.

Lemma replaceVariables_agree (variables1 variables2 : gmap string (option value))
    (template : string) :
  (∀ key, key ∈ Parser.tokens template →
     variables1 !! key = variables2 !! key) →
  Parser.replaceVariables toString memberText template variables1
  = Parser.replaceVariables toString memberText template variables2.
Proof.
  intros Hagree. apply replacePieces_agree.
  intros key Hkey. by apply Hagree, token_piece.
Qed.

(** X1: a template that holds no token is returned as it is, whatever the
    variables. *)
Theorem token_free_template_unchanged (variables : gmap string (option value))
    (template : string) :
  Parser.tokens template = [] →
  Parser.replaceVariables toString memberText template variables = Parser.Ok template.
Proof. apply replaceVariables_token_free. Qed.

(** X2: substitution changes the tokens and nothing else: when every token
    is given its own text as value, the result is the template, character
    for character. *)
Theorem substitution_keeps_text (variables : gmap string (option value))
    (template : string) :
  (∀ key, key ∈ Parser.tokens template →
     ∃ v, variables !! key = Some (Some v)
          ∧ toString v = "{{" +:+ key +:+ "}}") →
  Parser.replaceVariables toString memberText template variables = Parser.Ok template.
Proof.
  intros Hself. unfold Parser.replaceVariables.
  rewrite replacePieces_render; [by rewrite render_scan|].
  intros key Hkey. by apply Hself, token_piece.
Qed.

(** X3: the name of a token is a non-empty string of letters, digits and
    underscores: braces around anything else are ordinary text, and no
    other name is ever looked up in the variables. *)
Theorem token_names_are_words (template key : string) :
  key ∈ Parser.tokens template →
  key ≠ "" ∧ Parser.wordString key = true.
Proof. intros Hkey. by eapply tokens_scan_words, token_piece. Qed.

(** X4: a successful [exec] keeps the shape of the template: the same
    query keys in the same order, the same declared variables, and the
    same panels with the same titles, metric identifiers and dependencies;
    only query texts and expressions can differ. *)
Theorem exec_keeps_shape (variables : gmap string (option value))
    (template data : DashboardConfig) :
  Parser.exec toString memberText template variables = Parser.Ok data →
  Parser.shape data = Parser.shape template.
Proof.
  unfold Parser.exec. case_bool_decide; [done|].
  destruct (Parser.mapA _ (queries template)) as [parsedQueries|] eqn:Hq;
    [|done].
  cbn [mbind Parser.attempt_bind].
  destruct (Parser.mapA _ (panels template)) as [parsedPanels|] eqn:Hp;
    [|done].
  cbn [mbind Parser.attempt_bind]. intros [= <-].
  unfold Parser.shape, Parser.declaredVariables. simpl.
  apply mapA_Ok in Hq. apply mapA_Ok in Hp. f_equal; [f_equal|].
  - clear Hp. induction Hq as [|[k q] [k' q'] l l' Hx _ IH]; [done|].
    simpl. f_equal; [|exact IH].
    destruct (Parser.replaceVariables toString memberText q variables); [|done].
    by injection Hx as <- _.
  - clear Hq. induction Hp as [|p p' l l' Hx _ IH]; [done|].
    simpl. f_equal; [|exact IH]. unfold Parser.parsePanel in Hx.
    destruct (Parser.mapA _ (metrics p)) as [ms|] eqn:Hm; [|done].
    injection Hx as <-. cbn [title metrics]. f_equal.
    apply mapA_Ok in Hm. clear IH.
    induction Hm as [|m m' l0 l0' Hy _ IH]; [done|].
    simpl. f_equal; [|exact IH]. unfold Parser.parseMetric in Hy.
    destruct (Parser.replaceVariables toString memberText (expression m) variables);
      [|done].
    by injection Hy as <-.
Qed.

(** X5: [exec] reads no variable other than the declared names and the
    names of the tokens of the template: two mappings that agree on those
    give the same result, success or failure. *)
Theorem exec_reads_named_variables (variables1 variables2 : gmap string (option value))
    (template : DashboardConfig) :
  (∀ name,
     name ∈ default [] (Parser.declaredVariables template)
              ++ Parser.templateTokens template →
     variables1 !! name = variables2 !! name) →
  Parser.exec toString memberText template variables1
  = Parser.exec toString memberText template variables2.
Proof.
  intros Hagree.
  assert (Hmissing : Parser.missingVars template variables1
                     = Parser.missingVars template variables2).
  { unfold Parser.missingVars.
    destruct (Parser.declaredVariables template) as [declared|] eqn:Hd;
      [|done].
    apply filter_missing_agree. intros name Hname.
    apply Hagree, elem_of_app. by left. }
  assert (Htokens : ∀ template0, template0 ∈ Parser.templateStrings template →
            Parser.replaceVariables toString memberText template0 variables1
            = Parser.replaceVariables toString memberText template0 variables2).
  { intros template0 Hin. apply replaceVariables_agree. intros key Hkey.
    apply Hagree, elem_of_app. right. unfold Parser.templateTokens.
    apply list_elem_of_bind. eauto. }
  unfold Parser.exec. rewrite Hmissing. case_bool_decide; [done|].
  rewrite (mapA_agree _
             (λ '(key, query),
                q ← Parser.replaceVariables toString memberText query variables2 ;
                Parser.Ok (key, q)) (queries template)).
  2:{ intros [k q] Hin. rewrite Htokens; [done|].
      apply elem_of_app. left. apply list_elem_of_fmap. by exists (k, q). }
  rewrite (mapA_agree (Parser.parsePanel toString memberText variables1)
             (Parser.parsePanel toString memberText variables2) (panels template));
    [done|].
  intros panel Hpanel. unfold Parser.parsePanel.
  rewrite (mapA_agree (Parser.parseMetric toString memberText variables1)
             (Parser.parseMetric toString memberText variables2) (metrics panel));
    [done|].
  intros m Hm. unfold Parser.parseMetric. rewrite Htokens; [done|].
  apply elem_of_app. right. apply list_elem_of_bind. exists panel.
  split; [|done]. apply list_elem_of_fmap. eauto.
Qed.

(** X6: on a template without tokens whose declared names are supplied,
    [exec] succeeds and returns the template itself. *)
Theorem exec_token_free (variables : gmap string (option value))
    (template : DashboardConfig) :
  Parser.missingVars template variables = [] →
  Parser.templateTokens template = [] →
  Parser.exec toString memberText template variables = Parser.Ok template.
Proof.
  intros Hdeclared Hnone.
  assert (Hfree : ∀ template0, template0 ∈ Parser.templateStrings template →
            Parser.replaceVariables toString memberText template0 variables
            = Parser.Ok template0).
  { intros template0 Hin. apply replaceVariables_token_free.
    by apply (bind_nil_inv Parser.tokens (Parser.templateStrings template)). }
  unfold Parser.exec. rewrite Hdeclared.
  rewrite bool_decide_eq_false_2 by (simpl; lia).
  rewrite (mapA_same _ (queries template)).
  2:{ intros [k q] Hin. rewrite Hfree; [done|].
      apply elem_of_app. left. apply list_elem_of_fmap. by exists (k, q). }
  cbn [mbind Parser.attempt_bind].
  rewrite (mapA_same _ (panels template)).
  { by destruct template. }
  intros panel Hpanel. unfold Parser.parsePanel.
  rewrite (mapA_same _ (metrics panel)).
  { by destruct panel. }
  intros m Hm. unfold Parser.parseMetric. rewrite Hfree.
  { by destruct m. }
  apply elem_of_app. right. apply list_elem_of_bind. exists panel.
  split; [|done]. apply list_elem_of_fmap. eauto.
Qed.

Lemma filter_nil_iff {A : Type} (P : A → Prop) `{!∀ x, Decision (P x)}
    (l : list A) :
  filter P l = [] ↔ ∀ x, x ∈ l → ¬ P x.
Proof.
  split.
  - intros Hnil x Hx HP.
    assert (Hin : x ∈ filter P l) by by apply list_elem_of_filter.
    rewrite Hnil in Hin. by apply elem_of_nil in Hin.
  - intros Hall. destruct (filter P l) as [|x l'] eqn:Hf; [done|].
    assert (Hin : x ∈ filter P l) by (rewrite Hf; by left).
    apply list_elem_of_filter in Hin as [HP Hx]. by destruct (Hall x Hx).
Qed.

(** X23: [exec] succeeds exactly when every declared name is [in] the
    variables and every token reads a value other than [undefined].  The
    two tests differ: a key bound to [undefined] passes the first and
    fails the second, and both find the members of [Object.prototype]. *)
Theorem exec_succeeds_iff (variables : gmap string (option value))
    (template : DashboardConfig) :
  (∃ data, Parser.exec toString memberText template variables
           = Parser.Ok data)
  ↔ (∀ name, name ∈ default [] (Parser.declaredVariables template) →
       Parser.has variables name = true)
    ∧ (∀ key, key ∈ Parser.templateTokens template →
         Parser.undefinedAt variables key = false).
Proof.
  assert (Hdeclared : Parser.missingVars template variables = [] ↔
            ∀ name, name ∈ default [] (Parser.declaredVariables template) →
              Parser.has variables name = true).
  { unfold Parser.missingVars.
    destruct (Parser.declaredVariables template) as [declared|].
    - rewrite filter_nil_iff. cbn [default]. split.
      + intros H name Hname. specialize (H name Hname).
        by destruct (Parser.has variables name).
      + intros H name Hname. by rewrite (H name Hname).
    - split; [|done]. intros _ name Hname. by apply elem_of_nil in Hname. }
  split.
  - intros [data Hexec].
    assert (Hmissing : Parser.missingVars template variables = []).
    { unfold Parser.exec in Hexec.
      destruct (Parser.missingVars template variables); [done|].
      by rewrite bool_decide_eq_true_2 in Hexec by (simpl; lia). }
    split; [by apply Hdeclared|].
    apply firstMissing_None.
    pose proof (follows_exec toString memberText variables template Hmissing)
      as Hfollows.
    unfold Parser.follows in Hfollows. rewrite Hexec in Hfollows.
    by destruct (Parser.firstMissing variables _).
  - intros [Hnames Htokens]. apply Hdeclared in Hnames.
    pose proof (follows_exec toString memberText variables template Hnames)
      as Hfollows.
    unfold Parser.follows in Hfollows.
    by rewrite (proj2 (firstMissing_None _ _) Htokens) in Hfollows.
Qed.

End parser_more.

(** * More about the engine *)

Section engine_more.

Context {num : Type}.
Variable executeQuery : string → Engine.settled num.
Variable maxConcurrentQueries : Z.
Variable mathEvaluate : string → gmap string num → num + string.

Abbreviation Store := (Engine.Store num).
Abbreviation PanelCache := (gmap string (@Engine.DashboardResult num)).
Abbreviation allSettled := (Engine.allSettled executeQuery).
Abbreviation processQueries :=
  (Engine.processQueries executeQuery maxConcurrentQueries).
Abbreviation sweep := (Engine.sweep mathEvaluate).
Abbreviation resolve := (Engine.resolve mathEvaluate).
Abbreviation processPanel :=
  (Engine.processPanel executeQuery maxConcurrentQueries mathEvaluate).
Abbreviation drainN :=
  (Engine.drainN executeQuery maxConcurrentQueries mathEvaluate).
Abbreviation drain :=
  (Engine.drain executeQuery maxConcurrentQueries mathEvaluate).
Abbreviation sweepList := (sweepList mathEvaluate).
Abbreviation evaluations := (evaluations mathEvaluate).
Abbreviation tell := (@tell num).
Abbreviation Yielded := (Engine.Yielded num).

(** ** The rounds of the batcher *)

Lemma processQueries_rounds (Hmax : (1 ≤ maxConcurrentQueries)%Z)
    (k : nat) (queryEntries : list (string * string)) (st : Store) :
  processQueries (S k) queryEntries st = OutOfFuel ↔
  k * Z.to_nat maxConcurrentQueries < length queryEntries.
Proof.
  revert queryEntries st. induction k as [|k IH]; intros l st.
  - destruct l as [|e l]; simpl; [split; [done|lia]|].
    destruct (Engine.splice0 maxConcurrentQueries (e :: l)).
    split; [lia|done].
  - destruct l as [|e l]; [simpl; split; [done|lia]|].
    set (entries := e :: l).
    change (processQueries (S (S k)) entries st) with
      (let batch := take (Z.to_nat maxConcurrentQueries) entries in
       let st0 := Engine.logErrors (Engine.reported (allSettled batch))
                    (Engine.logCalls batch.*2 st) in
       '(zs, st1) ←
         processQueries (S k)
           (drop (Z.to_nat maxConcurrentQueries) entries) st0 ;
       Done (Engine.yielded (allSettled batch) ++ zs, st1)).
    cbv zeta.
    assert (Hlen : length entries = S (length l)) by done.
    assert (Hn : 0 < Z.to_nat maxConcurrentQueries) by lia.
    match goal with |- context [processQueries (S k) ?a ?b] =>
      specialize (IH a b);
      destruct (processQueries (S k) a b) as [[zs st1]|msg|]
    end; rewrite length_drop in IH; cbn [mbind outcome_bind].
    + split; [done|]. intros Hlt.
      by assert (Hbad : @Done (list (string * num) * Store) (zs, st1)
                        = OutOfFuel) by (apply IH; lia).
    + split; [done|]. intros Hlt.
      by assert (Hbad : @Threw (list (string * num) * Store) msg
                        = OutOfFuel) by (apply IH; lia).
    + split; [|done]. intros _.
      assert (Hk : k * Z.to_nat maxConcurrentQueries
                   < length entries - Z.to_nat maxConcurrentQueries)
        by by apply IH.
      lia.
Qed.


(** X7: with a ceiling [N] of at least one, [k] rounds of the batching
    loop serve exactly the query maps of at most [k * N] entries: each
    round dispatches at most [N] queries, and a larger map needs another
    round. *)
Theorem batcher_serves_ceiling_per_round
    (Hmax : (1 ≤ maxConcurrentQueries)%Z) (k : nat)
    (queryEntries : list (string * string)) (st : Store) :
  (length queryEntries ≤ k * Z.to_nat maxConcurrentQueries →
   processQueries (S k) queryEntries st
   = Done (Engine.yielded (allSettled queryEntries),
           Engine.logErrors (Engine.reported (allSettled queryEntries))
             (Engine.logCalls queryEntries.*2 st)))
  ∧ (k * Z.to_nat maxConcurrentQueries < length queryEntries →
     processQueries (S k) queryEntries st = OutOfFuel).
Proof.
  split; [|by apply processQueries_rounds].
  intros Hle.
  destruct (processQueries (S k) queryEntries st) as [[ys st']|e|] eqn:Hrun.
  - by apply processQueries_done in Hrun as [-> ->].
  - by apply processQueries_no_throw in Hrun.
  - apply processQueries_rounds in Hrun; [lia|done].
Qed.


(** ** The resolver when it returns *)

Lemma evaluations_at (l : list MetricsToCompute) (st st' : Store)
    (ys1 ys2 : list (string * num)) (k : string) (v : num) :
  evaluations l st (ys1 ++ (k, v) :: ys2) st' →
  ∃ m, m ∈ l ∧ id m = k
       ∧ Engine.eligible (Engine.storeResults ys1 st) m = true
       ∧ mathEvaluate (expression m)
           (Engine.calculatedValues (Engine.storeResults ys1 st)) = inl v.
Proof.
  revert st. induction ys1 as [|[k1 v1] ys1 IH]; intros st Hevs.
  - inversion Hevs; subst. eauto.
  - inversion Hevs; subst. by apply IH.
Qed.

Lemma storeResults_lookup_inv (qs : list (string * num)) (st : Store)
    (k : string) :
  is_Some (Engine.calculatedValues (Engine.storeResults qs st) !! k) →
  is_Some (Engine.calculatedValues st !! k) ∨ k ∈ qs.*1.
Proof.
  intros Hk. destruct (decide (k ∈ qs.*1)) as [?|Hout]; [by right|].
  left. by rewrite storeResults_lookup_other in Hk.
Qed.

(** X9: whenever the resolver returns, every pending metric has been
    yielded as many times as it is declared, and each yield comes after its
    dependencies: what is yielded is read back from a sequence of
    evaluations in which every dependency of the metric was bound when the
    resolver started or was evaluated earlier, and the number is the value
    of the expression under the bindings of that moment. *)
Theorem resolver_yields_in_dependency_order (fuel : nat)
    (l : list MetricsToCompute) (st st' : Store)
    (ys : list (@Engine.MetricResult num)) :
  resolve fuel l st = Done (ys, st') →
  ys.*1 ≡ₚ id <$> l
  ∧ ∃ evs,
      ys = (λ '(k, v), (k, Engine.readBack k v)) <$> evs
      ∧ st' = Engine.storeResults evs st
      ∧ ∀ evs1 k v evs2, evs = evs1 ++ (k, v) :: evs2 →
          ∃ m, m ∈ l ∧ id m = k
               ∧ (∀ d, d ∈ dependencies m →
                    is_Some (Engine.calculatedValues st !! d)
                    ∨ d ∈ evs1.*1)
               ∧ mathEvaluate (expression m)
                   (Engine.calculatedValues (Engine.storeResults evs1 st))
                 = inl v.
Proof.
  intros Hrun. apply resolve_evaluations in Hrun as (evs & -> & Hevs & Hperm).
  split; [by rewrite tell_keys|]. exists evs.
  split_and!; [done|by eapply evaluations_store|].
  intros evs1 k v evs2 ->.
  destruct (evaluations_at _ _ _ _ _ _ _ Hevs) as (m & Hm & Hk & Hel & Hv).
  exists m. split_and!; [done..| |done].
  intros d Hd. apply storeResults_lookup_inv.
  by apply (proj1 (eligible_spec _ _) Hel).
Qed.

(** X10: the resolver touches nothing but the bindings of its own metrics:
    when it returns, no query has been executed, nothing has been written
    to the console, every identifier that is not the identifier of a
    pending metric has the binding it had, and the identifiers assigned
    are those it yields, in that order. *)
Theorem resolver_frame (fuel : nat) (l : list MetricsToCompute)
    (st st' : Store) (ys : list (@Engine.MetricResult num)) :
  resolve fuel l st = Done (ys, st') →
  Engine.queryCalls st' = Engine.queryCalls st
  ∧ Engine.consoleErrors st' = Engine.consoleErrors st
  ∧ Engine.assignments st' = Engine.assignments st ++ ys.*1
  ∧ ∀ k, k ∉ id <$> l →
         Engine.calculatedValues st' !! k = Engine.calculatedValues st !! k.
Proof.
  intros Hrun. destruct (resolve_logs _ _ _ _ _ _ Hrun) as (Hc & He & Ha).
  split_and!; [done..|].
  apply resolve_evaluations in Hrun as (evs & _ & Hevs & Hperm).
  intros k Hk. rewrite (evaluations_store _ _ _ _ _ Hevs).
  apply storeResults_lookup_other. by rewrite Hperm.
Qed.

(** ** An evaluator that throws *)

Lemma sweepList_skip (a b : list MetricsToCompute) (st : Store) :
  Engine.shadowed st = false →
  (∀ m, m ∈ a → Engine.eligible st m = false) →
  sweepList (a ++ b) st
  = '(ys, kept, st') ← sweepList b st ; Done (ys, a ++ kept, st').
Proof.
  intros Hst. induction a as [|m a IH]; intros Hstuck.
  - simpl. by destruct (sweepList b st) as [[[??]?]| |].
  - simpl. rewrite throwsAt_unshadowed by done.
    rewrite (Hstuck m) by by left. rewrite IH.
    + by destruct (sweepList b st) as [[[??]?]| |].
    + intros x Hx. apply Hstuck. by right.
Qed.

(** X11: the resolver has no handler for the evaluator: when the metric
    that a sweep reaches first among the eligible ones (the eligible metric
    declared last) makes the evaluator throw, the resolution ends at once
    with the evaluator's own error, whatever else is pending.  The method
    [hasOwnProperty] is taken not to be shadowed, so that the test of
    eligibility itself does not throw. *)
Theorem evaluator_error_aborts_resolution (fuel : nat)
    (before after : list MetricsToCompute) (m : MetricsToCompute)
    (st : Store) (message : string) :
  Engine.shadowed st = false →
  (∀ x, x ∈ after → Engine.eligible st x = false) →
  Engine.eligible st m = true →
  mathEvaluate (expression m) (Engine.calculatedValues st) = inr message →
  resolve (S fuel) (before ++ m :: after) st = Threw message.
Proof.
  intros Hst Hafter Hel Hthrow.
  destruct (before ++ m :: after) as [|m0 l0] eqn:Hl.
  { by destruct before. }
  change (resolve (S fuel) (m0 :: l0) st) with
    ('(ys, pending', st') ← sweep (length (m0 :: l0)) (m0 :: l0) st ;
     '(zs, st'') ← resolve fuel pending' st' ;
     Done (ys ++ zs, st'')).
  rewrite sweep_whole, <- Hl, reverse_app, reverse_cons, <- app_assoc.
  rewrite sweepList_skip.
  - simpl. by rewrite throwsAt_unshadowed, Hel, Hthrow.
  - done.
  - intros x Hx. rewrite elem_of_reverse in Hx. by apply Hafter.
Qed.

(** X24: the test of eligibility calls [calculatedValues.hasOwnProperty]:
    once an identifier [hasOwnProperty] is bound, a resolution whose metric
    declared last has a dependency ends with a [TypeError] at the first
    test, whatever else is pending and whatever is bound. *)
Theorem shadowed_method_aborts_resolution (fuel : nat)
    (before : list MetricsToCompute) (m : MetricsToCompute) (st : Store) :
  Engine.shadowed st = true →
  dependencies m ≠ [] →
  resolve (S fuel) (before ++ [m]) st = Threw Engine.notAFunction.
Proof.
  intros Hst Hdeps.
  destruct (before ++ [m]) as [|m0 l0] eqn:Hl.
  { by destruct before. }
  change (resolve (S fuel) (m0 :: l0) st) with
    ('(ys, pending', st') ← sweep (length (m0 :: l0)) (m0 :: l0) st ;
     '(zs, st'') ← resolve fuel pending' st' ;
     Done (ys ++ zs, st'')).
  rewrite sweep_whole, <- Hl, reverse_snoc. simpl.
  unfold Engine.throwsAt. rewrite Hst.
  by rewrite bool_decide_eq_true_2.
Qed.

(** ** The panels of a run *)

Lemma processPanel_yield (fuel : nat) (queries : QueryMap) (useStream : bool)
    (panel : Panel) (cache cache' : PanelCache) (st st' : Store)
    (y : Yielded) :
  cacheKeyed useStream cache →
  processPanel fuel queries useStream panel cache st = Done (y, cache', st') →
  yieldsFor useStream panel y ∧ cacheKeyed useStream cache'.
Proof.
  intros Hkey. unfold yieldsFor.
  destruct (if useStream then Engine.cacheRead cache (title panel) else None)
    as [c|] eqn:Hc.
  - destruct useStream; [|done].
    rewrite (processPanel_hit _ _ _ _ _ _ _ _ c Hc).
    intros [= <- <- <-]. split; [|done]. unfold Engine.cacheRead in Hc.
    destruct (cache !! title panel) as [r0|] eqn:Hr0.
    + injection Hc as <-. destruct (Hkey _ _ Hr0) as [Ht Hin].
      rewrite Hin by done. exists r0.2. destruct r0 as [t results].
      simpl in *. by subst t.
    + destruct (Obj.inherited (title panel)); [|done].
      by injection Hc as <-.
  - rewrite processPanel_miss by (by intros ->).
    destruct (Engine.processCalculations _ _ _ _ _) as [[results st1]| |];
      [|done..].
    cbn [mbind outcome_bind]. intros [= <- <- <-]. split.
    + destruct useStream; [|by eexists].
      apply cacheRead_None in Hc as [_ ->]. by eexists.
    + intros t c. unfold Engine.cacheWrite. case_decide as Hproto.
      { apply Hkey. }
      destruct (decide (title panel = t)) as [<-|Hne].
      * rewrite lookup_insert_eq. intros [= <-]. split; [done|].
        intros ->. by apply cacheRead_None in Hc as [_ ?].
      * rewrite lookup_insert_ne by done. apply Hkey.
Qed.

Lemma drainN_yields (n fuel : nat) (panels : list Panel) (queries : QueryMap)
    (useStream : bool) (cache : PanelCache) (st : Store)
    (rs : list Yielded) (g : Engine.PanelStream num) :
  cacheKeyed useStream cache →
  drainN n fuel (Engine.mkStream panels queries useStream cache st)
  = Done (rs, g) →
  Forall2 (yieldsFor useStream) panels rs ∧ Engine.remaining g = [].
Proof.
  revert panels cache st rs g. induction n as [|n IH];
    intros panels cache st rs g Hkey; [done|].
  destruct panels as [|panel rest].
  { rewrite drainN_nil. by intros [= <- <-]. }
  rewrite drainN_cons.
  destruct (processPanel fuel queries useStream panel cache st)
    as [[[r cache'] st']| |] eqn:Hpanel; [|done..].
  cbn [mbind outcome_bind].
  destruct (drainN n fuel _) as [[rs' g']| |] eqn:Hrest; [|done..].
  cbn [mbind outcome_bind]. intros [= <- <-].
  destruct (processPanel_yield _ _ _ _ _ _ _ _ _ Hkey Hpanel) as [Hr Hkey'].
  destruct (IH _ _ _ _ _ Hkey' Hrest) as [Hrs Hrem].
  split; [|done]. by constructor.
Qed.

Lemma yieldsFor_title (useStream : bool) (panel : Panel) (y : Yielded) :
  yieldsFor useStream panel y → Engine.yieldTitle y = title panel.
Proof.
  unfold yieldsFor.
  destruct (useStream && Obj.inherited (title panel)); [by intros ->|].
  by intros [results ->].
Qed.

(** X12: when a run returns, it has yielded once per panel, in the order
    the panels are declared and each time for the title of its panel, in
    both modes and also when titles repeat: a result under the title of the
    panel, except in a stream at a title that names a member of
    [Object.prototype], where it is that member. *)
Theorem results_follow_declared_panels (fuel : nat) (panels : list Panel)
    (queries : QueryMap) (useStream : bool)
    (rs : list Yielded) (g : Engine.PanelStream num) :
  drain fuel (Engine.processPanelResults panels queries useStream)
  = Done (rs, g) →
  Engine.yieldTitle <$> rs = title <$> panels
  ∧ Engine.remaining g = []
  ∧ Forall2 (λ panel y,
               if useStream && Obj.inherited (title panel)
               then y = Engine.Member (title panel)
               else ∃ results, y = Engine.Result (title panel, results))
            panels rs.
Proof.
  intros Hrun. apply drainN_yields in Hrun as [Hrs Hrem].
  2:{ intros t c Hc. by rewrite lookup_empty in Hc. }
  split_and!; [|done|exact Hrs].
  clear Hrem. induction Hrs as [|panel y ps ys Hy _ IH]; [done|].
  simpl. f_equal; [by eapply yieldsFor_title|exact IH].
Qed.

(** The text [q] is the text of a query that a metric of [panel] depends
    on. *)
Lemma processPanel_calls (fuel : nat) (queries : QueryMap)
    (useStream : bool) (panel : Panel) (cache cache' : PanelCache)
    (st st' : Store) (r : Yielded) (q : string) :
  processPanel fuel queries useStream panel cache st = Done (r, cache', st') →
  q ∈ Engine.queryCalls st' →
  q ∈ Engine.queryCalls st
  ∨ ∃ m k, m ∈ metrics panel ∧ k ∈ dependencies m
           ∧ Obj.get queries k = Some q.
Proof.
  destruct (if useStream then Engine.cacheRead cache (title panel) else None)
    as [c|] eqn:Hc.
  - destruct useStream; [|done].
    rewrite (processPanel_hit _ _ _ _ _ _ _ _ c Hc).
    intros [= <- <- <-]. by left.
  - rewrite processPanel_miss by (by intros ->).
    unfold Engine.processCalculations.
    destruct (processQueries fuel _ st) as [[qs st1]| |] eqn:Hq; [|done..].
    cbn [mbind outcome_bind].
    destruct (resolve fuel _ _) as [[ys st2]| |] eqn:Hres; [|done..].
    cbn [mbind outcome_bind]. intros [= <- <- <-].
    apply processQueries_done in Hq as [-> ->].
    rewrite (proj1 (resolve_logs _ _ _ _ _ _ Hres)).
    rewrite (proj1 (storeResults_logs _ _)). simpl.
    intros Hin. apply elem_of_app in Hin as [?|Hin]; [by left|]. right.
    apply list_elem_of_fmap in Hin as ([k q'] & -> & Hin).
    apply entries_elem_of, relevantQueries_spec in Hin
      as ((m & Hm & Hk) & Hget & _).
    eauto.
Qed.

Lemma drainN_calls (n fuel : nat) (panels : list Panel) (queries : QueryMap)
    (useStream : bool) (cache : PanelCache) (st : Store)
    (rs : list Yielded) (g : Engine.PanelStream num)
    (q : string) :
  drainN n fuel (Engine.mkStream panels queries useStream cache st)
  = Done (rs, g) →
  q ∈ Engine.queryCalls (Engine.store g) →
  q ∈ Engine.queryCalls st
  ∨ ∃ panel m k, panel ∈ panels ∧ m ∈ metrics panel ∧ k ∈ dependencies m
                 ∧ Obj.get queries k = Some q.
Proof.
  revert panels cache st rs g. induction n as [|n IH];
    intros panels cache st rs g; [done|].
  destruct panels as [|panel rest].
  { rewrite drainN_nil. intros [= <- <-]. by left. }
  rewrite drainN_cons.
  destruct (processPanel fuel queries useStream panel cache st)
    as [[[r cache'] st']| |] eqn:Hpanel; [|done..].
  cbn [mbind outcome_bind].
  destruct (drainN n fuel _) as [[rs' g']| |] eqn:Hrest; [|done..].
  cbn [mbind outcome_bind]. intros [= <- <-] Hq.
  destruct (IH _ _ _ _ _ Hrest Hq) as [Hq'|(p & m & k & Hp & Hm & Hk & Hg)].
  - destruct (processPanel_calls _ _ _ _ _ _ _ _ _ _ Hpanel Hq')
      as [?|(m & k & Hm & Hk & Hg)]; [by left|].
    right. exists panel, m, k. split_and!; [by left|done..].
  - right. exists p, m, k. split_and!; [by right|done..].
Qed.

(** X13: a run executes no query but those its panels need: every query
    text handed to the executor is the text of a query that a metric of
    some panel names as a dependency.  A query that no metric depends on is
    never executed. *)
Theorem only_needed_queries_run (fuel : nat) (panels : list Panel)
    (queries : QueryMap) (useStream : bool)
    (rs : list Yielded) (g : Engine.PanelStream num)
    (q : string) :
  drain fuel (Engine.processPanelResults panels queries useStream)
  = Done (rs, g) →
  q ∈ Engine.queryCalls (Engine.store g) →
  ∃ panel m k, panel ∈ panels ∧ m ∈ metrics panel ∧ k ∈ dependencies m
               ∧ Obj.get queries k = Some q.
Proof.
  intros Hrun Hq.
  destruct (drainN_calls _ _ _ _ _ _ _ _ _ _ Hrun Hq) as [Hin|?]; [|done].
  by apply elem_of_nil in Hin.
Qed.

(** X14: the stream is lazy: after any number of [next()] calls, the
    panels not asked for yet are untouched, one yield has been delivered
    per panel visited, and the only queries executed are queries that
    metrics of the visited panels depend on. *)
Theorem stream_runs_only_requested_panels (panels : list Panel)
    (queries : QueryMap) (useStream : bool)
    (rs : list Yielded) (g : Engine.PanelStream num) :
  pulled executeQuery maxConcurrentQueries mathEvaluate
    (Engine.processPanelResults panels queries useStream) rs g →
  ∃ visited,
    panels = visited ++ Engine.remaining g
    ∧ length rs = length visited
    ∧ ∀ q, q ∈ Engine.queryCalls (Engine.store g) →
        ∃ panel m k, panel ∈ visited ∧ m ∈ metrics panel
                     ∧ k ∈ dependencies m ∧ Obj.get queries k = Some q.
Proof.
  intros Hpulled.
  enough (Engine.streamQueries g = queries
          ∧ ∃ visited,
              panels = visited ++ Engine.remaining g
              ∧ length rs = length visited
              ∧ ∀ q, q ∈ Engine.queryCalls (Engine.store g) →
                  ∃ panel m k, panel ∈ visited ∧ m ∈ metrics panel
                               ∧ k ∈ dependencies m
                               ∧ Obj.get queries k = Some q) as [_ ?];
    [done|].
  induction Hpulled
    as [|fuel rs g r g' Hpulled (Hqs & visited & Hps & Hlen & Hcalls) Hnext].
  - split; [done|]. exists []. split_and!; [done..|].
    intros q Hq. by apply elem_of_nil in Hq.
  - unfold Engine.next in Hnext.
    destruct (Engine.remaining g) as [|panel rest] eqn:Hrem; [done|].
    destruct (processPanel fuel _ _ panel _ _)
      as [[[r0 cache'] st']| |] eqn:Hpanel; [|done..].
    cbn [mbind outcome_bind] in Hnext. injection Hnext as <- <-.
    cbn [Engine.streamQueries Engine.remaining Engine.store].
    split; [done|]. exists (visited ++ [panel]). split_and!.
    + by rewrite <- app_assoc.
    + rewrite !length_app. simpl. lia.
    + intros q Hq. rewrite Hqs in Hpanel.
      destruct (processPanel_calls _ _ _ _ _ _ _ _ _ _ Hpanel Hq)
        as [Hq'|(m & k & Hm & Hk & Hg)].
      * destruct (Hcalls q Hq') as (p & m & k & Hp & ?).
        exists p, m, k. split; [|done]. apply elem_of_app. by left.
      * exists panel, m, k. split_and!; [|done..].
        apply elem_of_app. right. by left.
Qed.

(** ** A title that names a member of the prototype *)

(** X15: a stream never computes a panel whose title names a member of
    [Object.prototype]: whatever it has yielded before, [next()] yields the
    member that the read of the cache finds on the prototype, and leaves
    the cache and the store as they are, with any amount of fuel. *)
Theorem inherited_title_is_never_computed (panels : list Panel)
    (queries : QueryMap) (rs : list Yielded) (g : Engine.PanelStream num)
    (panel : Panel) (rest : list Panel) (fuel : nat) :
  pulled executeQuery maxConcurrentQueries mathEvaluate
    (Engine.processPanelResults panels queries true) rs g →
  Engine.remaining g = panel :: rest →
  Obj.inherited (title panel) = true →
  ∃ g', Engine.next executeQuery maxConcurrentQueries mathEvaluate fuel g
        = Done (Some (Engine.Member (title panel)), g')
        ∧ Engine.remaining g' = rest
        ∧ Engine.panelCache g' = Engine.panelCache g
        ∧ Engine.store g' = Engine.store g.
Proof.
  intros Hpulled Hrem Htitle.
  destruct (pulled_cache _ _ _ _ _ _ _ Hpulled) as (Hflag & Hkey & _).
  assert (Hread : Engine.cacheRead (Engine.panelCache g) (title panel)
                  = Some (Engine.Member (title panel))).
  { unfold Engine.cacheRead.
    destruct (Engine.panelCache g !! title panel) as [c|] eqn:Hc.
    - destruct (Hkey _ _ Hc) as [_ Hno]. congruence.
    - by rewrite Htitle. }
  eexists. split_and!.
  - unfold Engine.next. rewrite Hrem, Hflag.
    by rewrite (processPanel_hit _ _ _ _ _ _ _ _ _ Hread).
  - done.
  - done.
  - done.
Qed.

(** ** The queries of the aggregate mode *)

(** X16: the aggregate mode never reads the cache: when it returns, the
    query texts handed to the executor are, panel after panel in declared
    order, the texts of the panel's relevant queries in the order of
    [Object.entries], also for panels whose title repeats or names a member
    of [Object.prototype]. *)
Theorem aggregate_runs_every_panel (fuel : nat) (panels : list Panel)
    (queries : QueryMap) (rs : list Yielded)
    (g : Engine.PanelStream num) :
  drain fuel (Engine.processPanelResults panels queries false)
  = Done (rs, g) →
  Engine.queryCalls (Engine.store g)
  = panels ≫= λ panel,
      (Obj.entries (Engine.relevantQueries queries (metrics panel))).*2.
Proof.
  unfold Engine.drain, Engine.processPanelResults. cbn [Engine.remaining].
  change (panels ≫= λ panel,
            (Obj.entries
               (Engine.relevantQueries queries (metrics panel))).*2)
    with (Engine.queryCalls (@Engine.emptyStore num)
          ++ (panels ≫= λ panel,
                (Obj.entries
                   (Engine.relevantQueries queries (metrics panel))).*2)).
  generalize (@Engine.emptyStore num). generalize (∅ : PanelCache).
  revert rs g. induction panels as [|panel rest IH]; intros rs g cache st.
  - rewrite drainN_nil. intros [= <- <-]. simpl. by rewrite app_nil_r.
  - cbn [length]. rewrite drainN_cons, processPanel_miss by done.
    unfold Engine.processCalculations.
    destruct (processQueries fuel _ st) as [[qs st1]| |] eqn:Hq; [|done..].
    cbn [mbind outcome_bind].
    destruct (resolve fuel _ _) as [[ys st2]| |] eqn:Hres; [|done..].
    cbn [mbind outcome_bind].
    destruct (drainN _ fuel _) as [[rs' g']| |] eqn:Hrest; [|done..].
    cbn [mbind outcome_bind]. intros [= <- <-].
    rewrite (IH _ _ _ _ Hrest).
    apply processQueries_done in Hq as [-> ->].
    rewrite (proj1 (resolve_logs _ _ _ _ _ _ Hres)).
    rewrite (proj1 (storeResults_logs _ _)). simpl.
    by rewrite <- app_assoc.
Qed.

(** ** The order of the relevant queries *)

Lemma addDependency_keys (queries : QueryMap) (ds : list string)
    (acc : QueryMap) :
  (∀ k q, (k, q) ∈ acc → q ≠ "") →
  ∃ extra, foldl (Engine.addDependency queries) acc ds = acc ++ extra
           ∧ extra.*1 `sublist_of` ds.
Proof.
  revert acc. induction ds as [|d ds IH]; intros acc Hacc.
  { exists []. by rewrite app_nil_r. }
  cbn [foldl].
  destruct (addDependency_step queries acc d Hacc)
    as [(qd & _ & Hqd & _ & _ & ->)|[-> _]].
  - destruct (IH (acc ++ [(d, qd)])) as (extra & -> & Hsub).
    + intros k q Hin. apply elem_of_app in Hin as [Hin|Hin]; [by eapply Hacc|].
      apply list_elem_of_singleton in Hin. by simplify_eq.
    + exists ((d, qd) :: extra). split; [by rewrite <- app_assoc|].
      simpl. by apply sublist_skip.
  - destruct (IH acc Hacc) as (extra & -> & Hsub).
    exists extra. split; [done|]. by apply sublist_cons.
Qed.

Lemma insertIndexed_sorted {V : Type} (e : N * (string * V))
    (l : list (N * (string * V))) :
  StronglySorted N.le l.*1 → StronglySorted N.le (Obj.insertIndexed e l).*1.
Proof.
  induction l as [|e' l IH]; intros Hl.
  - simpl. repeat constructor.
  - simpl in Hl. apply StronglySorted_inv in Hl as [Hl Hle]. simpl.
    destruct (e.1 <=? e'.1)%N eqn:Hcmp.
    + apply N.leb_le in Hcmp. simpl. constructor.
      * by constructor.
      * constructor; [done|].
        eapply Forall_impl; [exact Hle|]. intros n Hn. simpl in Hn. lia.
    + apply N.leb_gt in Hcmp. simpl. constructor; [by apply IH|].
      rewrite insertIndexed_perm. simpl. constructor; [lia|done].
Qed.

Lemma indexed_sorted {V : Type} (o : list (string * V)) :
  StronglySorted N.le (Obj.indexed o).*1.
Proof.
  unfold Obj.indexed.
  induction (omap _ o) as [|e l IH]; [constructor|].
  simpl. by apply insertIndexed_sorted.
Qed.

Lemma indexed_elem_of {V : Type} (o : list (string * V)) (n : N)
    (e : string * V) :
  (n, e) ∈ Obj.indexed o → Obj.arrayIndex e.1 = Some n ∧ e ∈ o.
Proof.
  unfold Obj.indexed. intros Hin.
  assert (Hin' : (n, e) ∈ omap (λ e : string * V,
                                  n ← Obj.arrayIndex e.1 ; Some (n, e)) o).
  { revert Hin. generalize (omap (λ e : string * V,
                                    n ← Obj.arrayIndex e.1 ; Some (n, e)) o).
    intros l. induction l as [|e' l IH]; [done|]. simpl.
    rewrite insertIndexed_perm. intros Hin.
    apply elem_of_cons in Hin as [->|Hin]; [by left|]. right. by apply IH. }
  apply list_elem_of_omap in Hin' as (e' & He' & Heq).
  destruct (Obj.arrayIndex e'.1) as [n'|] eqn:Hn; [|done].
  simpl in Heq. by injection Heq as <- <-.
Qed.

(** X18: [Object.entries] hands the relevant queries of a panel to the
    batcher in two runs: first those whose key is an array index, by
    ascending index, then the others, whose keys are a subsequence of the
    dependency identifiers read metric after metric. *)
Theorem relevant_queries_in_dependency_order (queries : QueryMap)
    (ms : list MetricsToCompute) :
  ∃ front back,
    Obj.entries (Engine.relevantQueries queries ms) = front.*2 ++ back
    ∧ StronglySorted N.le front.*1
    ∧ (∀ n e, (n, e) ∈ front → Obj.arrayIndex e.1 = Some n)
    ∧ (∀ e, e ∈ back → Obj.arrayIndex e.1 = None)
    ∧ back.*1 `sublist_of` (ms ≫= dependencies).
Proof.
  exists (Obj.indexed (Engine.relevantQueries queries ms)),
    (Obj.named (Engine.relevantQueries queries ms)).
  split_and!.
  - done.
  - apply indexed_sorted.
  - intros n e Hin. by apply indexed_elem_of in Hin as [? _].
  - intros e He. unfold Obj.named in He.
    by apply list_elem_of_filter in He as [? _].
  - transitivity (Engine.relevantQueries queries ms).*1.
    + apply fmap_sublist, sublist_filter.
    + rewrite relevantQueries_flat.
      destruct (addDependency_keys queries (ms ≫= dependencies) [])
        as (extra & -> & Hsub); [|done].
      intros k q Hin. by apply elem_of_nil in Hin.
Qed.

(** ** What the cache saves *)

Lemma drainN_uncached (fuel : nat) (panels : list Panel) (queries : QueryMap)
    (seen : list string) (cache cache0 : PanelCache) (st : Store)
    (rs : list Yielded) (g : Engine.PanelStream num) :
  (∀ t, t ∈ seen ↔ is_Some (cache !! t)) →
  drainN (S (length panels)) fuel
    (Engine.mkStream panels queries true cache st) = Done (rs, g) →
  ∃ rs' g',
    drainN (S (length (uncached seen panels))) fuel
      (Engine.mkStream (uncached seen panels) queries false cache0 st)
    = Done (rs', g')
    ∧ Engine.store g' = Engine.store g
    ∧ rs' `sublist_of` rs.
Proof.
  revert seen cache cache0 st rs g.
  induction panels as [|panel rest IH]; intros seen cache cache0 st rs g Hseen.
  { rewrite drainN_nil. intros [= <- <-]. cbn [uncached length].
    rewrite drainN_nil. by eexists _, _. }
  cbn [length uncached]. rewrite drainN_cons.
  assert (Hskip : ∀ y, Engine.cacheRead cache (title panel) = Some y →
    ('(r, cache', st') ← processPanel fuel queries true panel cache st ;
     '(rs0, g0) ←
       drainN (S (length rest)) fuel
         (Engine.mkStream rest queries true cache' st') ;
     Done (r :: rs0, g0)) = Done (rs, g) →
    ∃ rs' g',
      drainN (S (length (uncached seen rest))) fuel
        (Engine.mkStream (uncached seen rest) queries false cache0 st)
      = Done (rs', g')
      ∧ Engine.store g' = Engine.store g
      ∧ rs' `sublist_of` rs).
  { intros y Hy. rewrite (processPanel_hit _ _ _ _ _ _ _ _ y Hy).
    cbn [mbind outcome_bind].
    destruct (drainN _ fuel _) as [[rs0 g0]| |] eqn:Hrest; [|done..].
    cbn [mbind outcome_bind]. intros [= <- <-].
    destruct (IH seen cache cache0 st rs0 g0 Hseen Hrest)
      as (rs' & g' & Hrun & Hstore & Hsub).
    exists rs', g'. split_and!; [done..|]. by apply sublist_cons. }
  destruct (decide (title panel ∈ seen)) as [Hin|Hout].
  { destruct (proj1 (Hseen _) Hin) as [c Hc].
    apply (Hskip (Engine.Result c)). unfold Engine.cacheRead. by rewrite Hc. }
  assert (Hnone : cache !! title panel = None).
  { destruct (cache !! title panel) eqn:Hc; [|done].
    destruct Hout. apply Hseen. by rewrite Hc. }
  destruct (Obj.inherited (title panel)) eqn:Htitle.
  { apply (Hskip (Engine.Member (title panel))). unfold Engine.cacheRead.
    by rewrite Hnone, Htitle. }
  assert (Hmiss : Engine.cacheRead cache (title panel) = None)
    by by apply cacheRead_None.
  cbn [length]. rewrite drainN_cons.
  rewrite (processPanel_miss _ _ _ fuel queries true) by done.
  rewrite (processPanel_miss _ _ _ fuel queries false) by done.
  destruct (Engine.processCalculations _ _ _ _ _) as [[results st1]| |];
    [|done..].
  cbn [mbind outcome_bind].
  destruct (drainN _ fuel (Engine.mkStream rest queries true _ _))
    as [[rs0 g0]| |] eqn:Hrest; [|done..].
  cbn [mbind outcome_bind]. intros [= <- <-].
  rewrite cacheWrite_insert in Hrest by done.
  destruct (IH (title panel :: seen)
              (<[title panel := (title panel, results)]> cache)
              (Engine.cacheWrite cache0 (title panel) (title panel, results))
              st1 rs0 g0) as (rs' & g' & -> & Hstore & Hsub); [|done|].
  - intros t. rewrite elem_of_cons, Hseen.
    destruct (decide (title panel = t)) as [<-|Hne].
    + rewrite lookup_insert_eq. split; [eauto|by left].
    + rewrite lookup_insert_ne by done. split; [|by right].
      by intros [->|?].
  - cbn [mbind outcome_bind]. eexists _, _. split_and!; [done..|].
    by apply sublist_skip.
Qed.

(** X19: what the cache of a stream saves: draining a stream leaves the
    store (values, query calls, assignments) that the aggregate run leaves
    on the panels whose title has not occurred before and does not name a
    member of [Object.prototype]; the other panels add nothing to it, and
    the results of that aggregate run are among what the stream yields, in
    the same order. *)
Theorem stream_costs_first_occurrences (fuel : nat) (panels : list Panel)
    (queries : QueryMap) (rs : list Yielded)
    (g : Engine.PanelStream num) :
  drain fuel (Engine.processPanelResults panels queries true)
  = Done (rs, g) →
  ∃ rs' g',
    drain fuel (Engine.processPanelResults (uncached [] panels) queries false)
    = Done (rs', g')
    ∧ Engine.store g' = Engine.store g
    ∧ rs' `sublist_of` rs.
Proof.
  apply drainN_uncached. intros t. rewrite lookup_empty. split.
  - intros Hin. by apply elem_of_nil in Hin.
  - by intros [? ?].
Qed.

End engine_more.

(** ** The ceiling *)

Section ceilings.

Context {num : Type}.
Variable executeQuery : string → Engine.settled num.
Variable mathEvaluate : string → gmap string num → num + string.
Variables ceiling1 ceiling2 : Z.

Lemma resolve_same (fuel1 fuel2 : nat) (l : list MetricsToCompute)
    (st : Engine.Store num)
    (r1 r2 : list (@Engine.MetricResult num) * Engine.Store num) :
  Engine.resolve mathEvaluate fuel1 l st = Done r1 →
  Engine.resolve mathEvaluate fuel2 l st = Done r2 →
  r1 = r2.
Proof.
  intros H1 H2.
  apply (resolve_fuel_mono _ _ (fuel1 `max` fuel2)) in H1; [|lia].
  apply (resolve_fuel_mono _ _ (fuel1 `max` fuel2)) in H2; [|lia].
  congruence.
Qed.

Lemma processPanel_same (fuel1 fuel2 : nat) (queries : QueryMap)
    (useStream : bool) (panel : Panel)
    (cache : gmap string (@Engine.DashboardResult num))
    (st : Engine.Store num) r1 r2 :
  Engine.processPanel executeQuery ceiling1 mathEvaluate fuel1 queries
    useStream panel cache st = Done r1 →
  Engine.processPanel executeQuery ceiling2 mathEvaluate fuel2 queries
    useStream panel cache st = Done r2 →
  r1 = r2.
Proof.
  destruct (if useStream then Engine.cacheRead cache (title panel) else None)
    as [c|] eqn:Hc.
  - destruct useStream; [|done].
    rewrite !(processPanel_hit _ _ _ _ _ _ _ _ c Hc). congruence.
  - rewrite !processPanel_miss by (by intros ->).
    unfold Engine.processCalculations.
    destruct (Engine.processQueries executeQuery ceiling1 fuel1 _ st)
      as [[qs1 st1]| |] eqn:Hq1; [|done..].
    destruct (Engine.processQueries executeQuery ceiling2 fuel2 _ st)
      as [[qs2 st2]| |] eqn:Hq2; [|done..].
    apply processQueries_done in Hq1 as [-> ->].
    apply processQueries_done in Hq2 as [-> ->].
    cbn [mbind outcome_bind].
    destruct (Engine.resolve mathEvaluate fuel1 _ _) as [r1'| |] eqn:Hr1;
      [|done..].
    destruct (Engine.resolve mathEvaluate fuel2 _ _) as [r2'| |] eqn:Hr2;
      [|done..].
    rewrite (resolve_same _ _ _ _ _ _ Hr1 Hr2).
    destruct r2' as [ys st']. cbn [mbind outcome_bind]. congruence.
Qed.

Lemma drainN_same (n1 n2 fuel1 fuel2 : nat) (g : Engine.PanelStream num)
    r1 r2 :
  Engine.drainN executeQuery ceiling1 mathEvaluate n1 fuel1 g = Done r1 →
  Engine.drainN executeQuery ceiling2 mathEvaluate n2 fuel2 g = Done r2 →
  r1 = r2.
Proof.
  revert n2 g r1 r2. induction n1 as [|n1 IH]; intros n2 g r1 r2; [done|].
  destruct n2 as [|n2]; [done|].
  destruct g as [panels queries useStream cache st].
  destruct panels as [|panel rest].
  { rewrite !drainN_nil. congruence. }
  rewrite !drainN_cons.
  destruct (Engine.processPanel executeQuery ceiling1 _ _ _ _ _ _ _)
    as [[[p1 c1] s1]| |] eqn:Hp1; [|done..].
  destruct (Engine.processPanel executeQuery ceiling2 _ _ _ _ _ _ _)
    as [[[p2 c2] s2]| |] eqn:Hp2; [|done..].
  pose proof (processPanel_same _ _ _ _ _ _ _ _ _ Hp1 Hp2) as [= -> -> ->].
  cbn [mbind outcome_bind].
  destruct (Engine.drainN executeQuery ceiling1 _ n1 _ _)
    as [[rs1 g1]| |] eqn:Hd1; [|done..].
  destruct (Engine.drainN executeQuery ceiling2 _ n2 _ _)
    as [[rs2 g2]| |] eqn:Hd2; [|done..].
  pose proof (IH _ _ _ _ Hd1 Hd2) as [= -> ->].
  cbn [mbind outcome_bind]. congruence.
Qed.

(** X17: the ceiling decides how the queries are batched and nothing else:
    two runs of the same dashboard that return, under any two ceilings,
    return the same panel results and leave the same values, the same
    sequence of query calls and the same console output. *)
Theorem ceiling_does_not_change_results (fuel1 fuel2 : nat)
    (panels : list Panel) (queries : QueryMap) (useStream : bool)
    (rs1 rs2 : list (Engine.Yielded num))
    (g1 g2 : Engine.PanelStream num) :
  Engine.drain executeQuery ceiling1 mathEvaluate fuel1
    (Engine.processPanelResults panels queries useStream) = Done (rs1, g1) →
  Engine.drain executeQuery ceiling2 mathEvaluate fuel2
    (Engine.processPanelResults panels queries useStream) = Done (rs2, g2) →
  rs1 = rs2 ∧ g1 = g2.
Proof.
  intros H1 H2. by pose proof (drainN_same _ _ _ _ _ _ _ H1 H2) as [= -> ->].
Qed.

End ceilings.

(** * The earlier revision *)

Section legacy_facts.

Context {num : Type}.
Variable executeQuery : string → Engine.settled num.
Variable maxConcurrentQueries : Z.
Variable mathEvaluate : string → gmap string num → num + string.

(** The results of the queries as the stream yields them. *)
Abbreviation numbers :=
  (fmap (M := list) (λ '(k, v), (k, @Engine.Number num v))).

Lemma calculationStream_done (fuel : nat)
    (dashboard : Legacy.DashboardTemplate)
    (items : list (@Engine.MetricResult num)) (st : Engine.Store num) :
  Legacy.calculationStream executeQuery maxConcurrentQueries mathEvaluate
    fuel dashboard = Done (items, st) →
  ∃ evs,
    items = numbers (Engine.yielded
                       (Engine.allSettled executeQuery
                          (Legacy.queries dashboard)))
            ++ tell evs
    ∧ evs.*1 ≡ₚ id <$> Legacy.widgets dashboard
    ∧ st = Engine.storeResults
             (Engine.yielded
                (Engine.allSettled executeQuery (Legacy.queries dashboard))
              ++ evs)
             (Engine.logErrors
                (Engine.reported
                   (Engine.allSettled executeQuery
                      (Legacy.queries dashboard)))
                (Engine.logCalls (Legacy.queries dashboard).*2
                   Engine.emptyStore)).
Proof.
  unfold Legacy.calculationStream, Legacy.processCalculations.
  destruct (Engine.processQueries _ _ fuel _ _) as [[qs st1]| |] eqn:Hq;
    [|done..].
  cbn [mbind outcome_bind].
  destruct (Engine.resolve _ fuel _ _) as [[ys st2]| |] eqn:Hres; [|done..].
  cbn [mbind outcome_bind]. intros [= <- <-].
  apply processQueries_done in Hq as [-> ->].
  apply resolve_evaluations in Hres as (evs & -> & Hevs & Hperm).
  exists evs. split_and!; [done..|].
  rewrite storeResults_app. by eapply evaluations_store.
Qed.

Lemma numbers_keys (qs : list (string * num)) : (numbers qs).*1 = qs.*1.
Proof.
  induction qs as [|[k v] qs IH]; [done|]. simpl. f_equal. exact IH.
Qed.

(** X20: the stream of the earlier revision, when it can be drained,
    yields the fulfilled results of all the queries of the map, in the
    order of the map, and after them every widget once; every query of the
    map is executed, whether a widget depends on it or not. *)
Theorem legacy_stream_yields_queries_then_widgets (fuel : nat)
    (dashboard : Legacy.DashboardTemplate)
    (items : list (@Engine.MetricResult num)) (st : Engine.Store num) :
  Legacy.calculationStream executeQuery maxConcurrentQueries mathEvaluate
    fuel dashboard = Done (items, st) →
  Engine.queryCalls st = (Legacy.queries dashboard).*2
  ∧ ∃ ys,
      items
      = ((λ '(k, v), (k, Engine.Number v))
           <$> Engine.yielded
                 (Engine.allSettled executeQuery (Legacy.queries dashboard)))
        ++ ys
      ∧ ys.*1 ≡ₚ id <$> Legacy.widgets dashboard.
Proof.
  intros Hrun.
  apply calculationStream_done in Hrun as (evs & Hitems & Hperm & ->).
  split; [by rewrite (proj1 (storeResults_logs _ _))|].
  exists (tell evs). split; [done|]. by rewrite tell_keys.
Qed.

(** The object [results] holds, as numbers, what the assignments of the
    same identifiers leave in [calculatedValues]. *)
Lemma record_store (ps : list (string * num))
    (items : list (@Engine.MetricResult num)) (st : Engine.Store num) :
  Forall2 (λ p item, item.1 = p.1
                     ∧ (p.1 ≠ "__proto__" → item.2 = Engine.Number p.2))
          ps items →
  foldl Legacy.record (Engine.Number <$> Engine.calculatedValues st) items
  = Engine.Number <$> Engine.calculatedValues (Engine.storeResults ps st).
Proof.
  intros Hitems. revert st.
  induction Hitems as [|[k v] [k' v'] ps items [Hk Hv] _ IH]; intros st;
    [done|].
  simpl in Hk, Hv. subst k'. cbn [foldl].
  change (Engine.storeResults ((k, v) :: ps) st)
    with (Engine.storeResults ps (Engine.assign k v st)).
  rewrite <- IH. f_equal. unfold Legacy.record. simpl.
  case_decide as Hproto; [done|]. by rewrite Hv, fmap_insert.
Qed.

Lemma storeResults_lookup_proto (qs : list (string * num))
    (st : Engine.Store num) :
  Engine.calculatedValues (Engine.storeResults qs st) !! "__proto__"
  = Engine.calculatedValues st !! "__proto__".
Proof.
  revert st. induction qs as [|[k v] qs IH]; intros st; [done|].
  change (Engine.storeResults ((k, v) :: qs) st)
    with (Engine.storeResults qs (Engine.assign k v st)).
  rewrite IH. simpl. case_decide as Hk; [done|].
  by rewrite lookup_insert_ne.
Qed.

(** X21: in the earlier revision the aggregate result is the table of
    values the resolver worked on: it binds the identifiers that the stream
    yields, queries and widgets alike, each to its number of the end of the
    run, except [__proto__], which neither object can hold. *)
Theorem legacy_aggregate_is_value_table (fuel : nat)
    (dashboard : Legacy.DashboardTemplate)
    (results : gmap string (Engine.Value num)) :
  Legacy.executeDashboard executeQuery maxConcurrentQueries mathEvaluate
    fuel dashboard = Done results →
  ∃ items st,
    Legacy.calculationStream executeQuery maxConcurrentQueries mathEvaluate
      fuel dashboard = Done (items, st)
    ∧ results = Engine.Number <$> Engine.calculatedValues st
    ∧ ∀ k, is_Some (results !! k) ↔ k ∈ items.*1 ∧ k ≠ "__proto__".
Proof.
  unfold Legacy.executeDashboard.
  destruct (Legacy.calculationStream _ _ _ fuel dashboard)
    as [[items st]| |] eqn:Hrun; [|done..].
  cbn [mbind outcome_bind]. intros [= <-]. exists items, st.
  destruct (calculationStream_done _ _ _ _ Hrun) as (evs & Hitems & _ & Hst).
  set (qs := Engine.yielded
               (Engine.allSettled executeQuery (Legacy.queries dashboard)))
    in *.
  assert (Hvalues : foldl Legacy.record ∅ items
                    = Engine.Number <$> Engine.calculatedValues st).
  { rewrite Hst, <- (record_store (qs ++ evs) items).
    - simpl. by rewrite fmap_empty.
    - rewrite Hitems. apply Forall2_app.
      + clear. induction qs as [|[k v] qs IH]; simpl; by constructor.
      + clear. induction evs as [|[k v] evs IH]; simpl; constructor;
          [|done].
        split; [done|]. simpl. intros Hk. by apply readBack_Number. }
  assert (Hkeys : items.*1 = (qs ++ evs).*1).
  { by rewrite Hitems, !fmap_app, numbers_keys, tell_keys. }
  split_and!; [done..|]. intros k.
  rewrite Hvalues, lookup_fmap, fmap_is_Some, Hst, Hkeys. split.
  - intros Hk. split.
    + apply storeResults_lookup_inv in Hk as [Hk|?]; [|done].
      simpl in Hk. rewrite lookup_empty in Hk. by destruct Hk.
    + intros ->. rewrite storeResults_lookup_proto in Hk. simpl in Hk.
      rewrite lookup_empty in Hk. by destruct Hk.
  - intros [Hk Hproto]. by apply storeResults_lookup_key.
Qed.

End legacy_facts.

Section legacy_parser_facts.

Context {value : Type}.
Variable toString : value → string.
Variable memberText : string → string.

(** X22: a successful [exec] of the earlier revision returns the queries
    and the widgets only: the data declares no variables, also when the
    template does; the keys of the queries and the identifiers and
    dependencies of the widgets are those of the template, in the same
    order. *)
Theorem legacy_exec_drops_declared_variables
    (template data : Legacy.DashboardTemplate)
    (vars : gmap string (option value)) :
  Legacy.exec toString memberText template vars = Parser.Ok data →
  Legacy.variables data = None
  ∧ (Legacy.queries data).*1 = (Legacy.queries template).*1
  ∧ (λ w, (id w, dependencies w)) <$> Legacy.widgets data
    = (λ w, (id w, dependencies w)) <$> Legacy.widgets template.
Proof.
  unfold Legacy.exec. case_bool_decide; [done|].
  destruct (Parser.mapA _ (Legacy.queries template)) as [parsedQueries|]
    eqn:Hq; [|done].
  cbn [mbind Parser.attempt_bind].
  destruct (Parser.mapA (Parser.parseMetric toString memberText vars)
              (Legacy.widgets template)) as [parsedWidgets|]
    eqn:Hw; [|done].
  cbn [mbind Parser.attempt_bind]. intros [= <-].
  cbn [Legacy.variables Legacy.queries Legacy.widgets].
  apply mapA_Ok in Hq. apply mapA_Ok in Hw. split_and!; [done| |].
  - clear Hw. induction Hq as [|[k q] [k' q'] l l' Hx _ IH]; [done|].
    simpl. f_equal; [|exact IH].
    destruct (Parser.replaceVariables toString memberText q vars); [|done].
    by injection Hx as <- _.
  - clear Hq. induction Hw as [|w w' l l' Hx _ IH]; [done|].
    simpl. f_equal; [|exact IH]. unfold Parser.parseMetric in Hx.
    destruct (Parser.replaceVariables toString memberText (expression w) vars);
      [|done].
    by injection Hx as <-.
Qed.

End legacy_parser_facts.

(** * The added properties on concrete inputs *)

Lemma token_free_template_witness :
  Parser.replaceVariables Fixture.toString Fixture.memberText "SELECT 1" ∅
  = Parser.Ok "SELECT 1".
Proof.
  apply (token_free_template_unchanged Fixture.toString Fixture.memberText ∅ "SELECT 1").
  reflexivity.
Defined.

Lemma substitution_keeps_text_witness :
  Parser.replaceVariables Fixture.toString Fixture.memberText "a {{x}} b" {["x" := Some "{{x}}"]}
  = Parser.Ok "a {{x}} b".
Proof.
  apply (substitution_keeps_text Fixture.toString Fixture.memberText {["x" := Some "{{x}}"]}
           "a {{x}} b").
  intros key Hkey. vm_compute in Hkey.
  apply list_elem_of_singleton in Hkey as ->.
  exists "{{x}}". split; reflexivity.
Defined.

Lemma token_names_witness :
  "b_1" ≠ "" ∧ Parser.wordString "b_1" = true.
Proof.
  apply (token_names_are_words "{{a-b}} {{b_1}} {{}}" "b_1").
  vm_compute. by left.
Defined.

Lemma exec_keeps_shape_witness :
  ∃ data,
    Parser.exec Fixture.toString Fixture.memberText Fixture.declaredTemplate
      {["x" := Some "1"; "y" := Some "2"; "z" := Some "3"]} = Parser.Ok data
    ∧ Parser.shape data = Parser.shape Fixture.declaredTemplate.
Proof.
  destruct (Parser.exec Fixture.toString Fixture.memberText Fixture.declaredTemplate
              {["x" := Some "1"; "y" := Some "2"; "z" := Some "3"]})
    as [data|] eqn:Hexec; [|vm_compute in Hexec; discriminate].
  exists data. split; [done|].
  exact (exec_keeps_shape Fixture.toString Fixture.memberText _ _ _ Hexec).
Defined.

Lemma exec_reads_named_variables_witness :
  Parser.exec Fixture.toString Fixture.memberText Fixture.declaredTemplate
    {["x" := Some "1"; "y" := Some "2"; "z" := Some "3"]}
  = Parser.exec Fixture.toString Fixture.memberText Fixture.declaredTemplate
      {["x" := Some "1"; "y" := Some "2"; "z" := Some "3"; "unused" := Some "4"]}.
Proof.
  apply (exec_reads_named_variables Fixture.toString Fixture.memberText).
  intros name Hname. vm_compute in Hname.
  repeat (apply elem_of_cons in Hname as [->|Hname]; [reflexivity|]).
  by apply elem_of_nil in Hname.
Defined.

Lemma exec_token_free_witness :
  Parser.exec Fixture.toString Fixture.memberText Fixture.plainTemplate {["x" := Some "1"]}
  = Parser.Ok Fixture.plainTemplate.
Proof.
  apply (exec_token_free Fixture.toString Fixture.memberText {["x" := Some "1"]}
           Fixture.plainTemplate); reflexivity.
Defined.

Lemma batcher_rounds_witness :
  Engine.processQueries Fixture.executeQuery 1 3 Fixture.queriesAB
    Engine.emptyStore
  = Done ([("a", 1%Z); ("b", 2%Z)],
          Engine.logErrors [] (Engine.logCalls ["qa"; "qb"]
                                 Engine.emptyStore))
  ∧ Engine.processQueries Fixture.executeQuery 1 2 Fixture.queriesAB
      Engine.emptyStore = OutOfFuel.
Proof.
  destruct (batcher_serves_ceiling_per_round Fixture.executeQuery 1
              ltac:(done) 2 Fixture.queriesAB Engine.emptyStore)
    as [Hdone _].
  destruct (batcher_serves_ceiling_per_round Fixture.executeQuery 1
              ltac:(done) 1 Fixture.queriesAB Engine.emptyStore)
    as [_ Hloop].
  split; [apply Hdone|apply Hloop]; simpl; lia.
Defined.


Lemma resolver_order_witness :
  ∃ ys (st' : Engine.Store Z),
    Engine.resolve Fixture.sumEvaluate 5 Fixture.chain Fixture.leaves
    = Done (ys, st')
    ∧ ys.*1 ≡ₚ ["x"; "y"].
Proof.
  destruct (Engine.resolve Fixture.sumEvaluate 5 Fixture.chain
              Fixture.leaves)
    as [[ys st']| |] eqn:Hrun; try (vm_compute in Hrun; discriminate).
  destruct (resolver_yields_in_dependency_order Fixture.sumEvaluate 5
              Fixture.chain Fixture.leaves st' ys Hrun) as [Hperm _].
  by exists ys, st'.
Defined.

Lemma resolver_frame_witness :
  ∃ ys (st' : Engine.Store Z),
    Engine.resolve Fixture.sumEvaluate 5 Fixture.chain Fixture.leaves
    = Done (ys, st')
    ∧ Engine.queryCalls st' = []
    ∧ Engine.calculatedValues st' !! "a" = Some 1%Z.
Proof.
  destruct (Engine.resolve Fixture.sumEvaluate 5 Fixture.chain
              Fixture.leaves)
    as [[ys st']| |] eqn:Hrun; try (vm_compute in Hrun; discriminate).
  destruct (resolver_frame Fixture.sumEvaluate 5 Fixture.chain
              Fixture.leaves st' ys Hrun) as (Hcalls & _ & _ & Hother).
  exists ys, st'. split_and!; [done|exact Hcalls|].
  rewrite Hother; [reflexivity|]. vm_compute.
  intros Hin. apply elem_of_cons in Hin as [?|Hin]; [done|].
  by apply list_elem_of_singleton in Hin.
Defined.

Lemma evaluator_error_witness :
  Engine.resolve Fixture.sumEvaluate 1
    [Fixture.brokenMetric; Fixture.stuckMetric] Engine.emptyStore
  = Threw "Undefined symbol zz".
Proof.
  apply (evaluator_error_aborts_resolution Fixture.sumEvaluate 0 []
           [Fixture.stuckMetric] Fixture.brokenMetric Engine.emptyStore).
  - reflexivity.
  - intros x Hx. by apply list_elem_of_singleton in Hx as ->.
  - reflexivity.
  - reflexivity.
Defined.

Lemma results_follow_panels_witness :
  ∃ rs (g : Engine.PanelStream Z),
    Engine.drain Fixture.executeQuery Fixture.defaultCeiling
      Fixture.sumEvaluate 5
      (Engine.processPanelResults (panels Fixture.twinDashboard)
         (queries Fixture.twinDashboard) true) = Done (rs, g)
    ∧ Engine.yieldTitle <$> rs = ["P"; "P"].
Proof.
  destruct (Engine.drain Fixture.executeQuery Fixture.defaultCeiling
              Fixture.sumEvaluate 5
              (Engine.processPanelResults (panels Fixture.twinDashboard)
                 (queries Fixture.twinDashboard) true))
    as [[rs g]| |] eqn:Hrun; try (vm_compute in Hrun; discriminate).
  destruct (results_follow_declared_panels Fixture.executeQuery
              Fixture.defaultCeiling Fixture.sumEvaluate 5 _ _ _ rs g Hrun)
    as [Htitles _].
  by exists rs, g.
Defined.

Lemma only_needed_queries_witness :
  ∃ panel m k,
    panel ∈ panels Fixture.sharedDashboard ∧ m ∈ metrics panel
    ∧ k ∈ dependencies m
    ∧ Obj.get (queries Fixture.sharedDashboard) k = Some "qa".
Proof.
  destruct (Engine.drain Fixture.executeQuery Fixture.defaultCeiling
              Fixture.sumEvaluate 5
              (Engine.processPanelResults (panels Fixture.sharedDashboard)
                 (queries Fixture.sharedDashboard) false))
    as [[rs g]| |] eqn:Hrun; try (vm_compute in Hrun; discriminate).
  apply (only_needed_queries_run Fixture.executeQuery
           Fixture.defaultCeiling Fixture.sumEvaluate 5 _ _ _ rs g "qa"
           Hrun).
  vm_compute in Hrun. injection Hrun as _ <-. by left.
Defined.

Lemma stream_laziness_witness :
  ∃ (g : Engine.PanelStream Z) visited,
    panels Fixture.sharedDashboard = visited ++ Engine.remaining g
    ∧ length visited = 1
    ∧ Engine.queryCalls (Engine.store g) = ["qa"].
Proof.
  destruct (Engine.next Fixture.executeQuery Fixture.defaultCeiling
              Fixture.sumEvaluate 5
              (Engine.processPanelResults (panels Fixture.sharedDashboard)
                 (queries Fixture.sharedDashboard) true))
    as [[[r1|] g1]| |] eqn:Hnext; try (vm_compute in Hnext; discriminate).
  destruct (stream_runs_only_requested_panels Fixture.executeQuery
              Fixture.defaultCeiling Fixture.sumEvaluate
              (panels Fixture.sharedDashboard)
              (queries Fixture.sharedDashboard) true ([] ++ [r1]) g1)
    as (visited & Hpanels & Hlen & _).
  { eapply pulled_next; [apply pulled_nil|exact Hnext]. }
  exists g1, visited. split_and!; [done|by rewrite <- Hlen|].
  vm_compute in Hnext. by injection Hnext as _ <-.
Defined.

Lemma inherited_title_witness :
  ∃ g' : Engine.PanelStream Z,
    Engine.next Fixture.executeQuery Fixture.defaultCeiling
      Fixture.sumEvaluate 0
      (Engine.processPanelResults (panels Fixture.methodDashboard)
         (queries Fixture.methodDashboard) true)
    = Done (Some (Engine.Member "toString"), g')
    ∧ Engine.store g' = Engine.emptyStore.
Proof.
  destruct (inherited_title_is_never_computed Fixture.executeQuery
              Fixture.defaultCeiling Fixture.sumEvaluate
              (panels Fixture.methodDashboard)
              (queries Fixture.methodDashboard) []
              (Engine.processPanelResults (panels Fixture.methodDashboard)
                 (queries Fixture.methodDashboard) true)
              (mkPanel "toString" [mkMetric "sum" "a + b" ["a"; "b"]]) [] 0)
    as (g' & Hnext & _ & _ & Hstore).
  - apply pulled_nil.
  - reflexivity.
  - reflexivity.
  - by exists g'.
Defined.

Lemma aggregate_runs_every_panel_witness :
  ∃ rs (g : Engine.PanelStream Z),
    Engine.drain Fixture.executeQuery Fixture.defaultCeiling
      Fixture.sumEvaluate 5
      (Engine.processPanelResults [Fixture.indexedPanel]
         Fixture.indexedQueries false) = Done (rs, g)
    ∧ Engine.queryCalls (Engine.store g) = ["qb"; "qa"; "qb"; "qa"].
Proof.
  destruct (Engine.drain Fixture.executeQuery Fixture.defaultCeiling
              Fixture.sumEvaluate 5
              (Engine.processPanelResults [Fixture.indexedPanel]
                 Fixture.indexedQueries false))
    as [[rs g]| |] eqn:Hrun; try (vm_compute in Hrun; discriminate).
  exists rs, g. split; [done|].
  by rewrite (aggregate_runs_every_panel Fixture.executeQuery
                Fixture.defaultCeiling Fixture.sumEvaluate 5 _ _ rs g Hrun).
Defined.

Lemma ceiling_witness :
  ∃ rs1 (g1 : Engine.PanelStream Z) rs2 (g2 : Engine.PanelStream Z),
    Engine.drain Fixture.executeQuery 1 Fixture.sumEvaluate 5
      (Engine.processPanelResults (panels Fixture.sumDashboard)
         (queries Fixture.sumDashboard) false) = Done (rs1, g1)
    ∧ Engine.drain Fixture.executeQuery Fixture.defaultCeiling
        Fixture.sumEvaluate 5
        (Engine.processPanelResults (panels Fixture.sumDashboard)
           (queries Fixture.sumDashboard) false) = Done (rs2, g2)
    ∧ rs1 = rs2 ∧ g1 = g2.
Proof.
  destruct (Engine.drain Fixture.executeQuery 1 Fixture.sumEvaluate 5
              (Engine.processPanelResults (panels Fixture.sumDashboard)
                 (queries Fixture.sumDashboard) false))
    as [[rs1 g1]| |] eqn:Hrun1; try (vm_compute in Hrun1; discriminate).
  destruct (Engine.drain Fixture.executeQuery Fixture.defaultCeiling
              Fixture.sumEvaluate 5
              (Engine.processPanelResults (panels Fixture.sumDashboard)
                 (queries Fixture.sumDashboard) false))
    as [[rs2 g2]| |] eqn:Hrun2; try (vm_compute in Hrun2; discriminate).
  exists rs1, g1, rs2, g2. split_and!; [done..| |];
    by destruct (ceiling_does_not_change_results Fixture.executeQuery
                   Fixture.sumEvaluate 1 Fixture.defaultCeiling 5 5 _ _ _
                   rs1 rs2 g1 g2 Hrun1 Hrun2).
Defined.

Lemma stream_costs_witness :
  ∃ rs' (g' : Engine.PanelStream Z),
    Engine.drain Fixture.executeQuery Fixture.defaultCeiling
      Fixture.sumEvaluate 5
      (Engine.processPanelResults
         (uncached [] (panels Fixture.twinDashboard))
         (queries Fixture.twinDashboard) false) = Done (rs', g')
    ∧ rs' = [Engine.Result ("P", [("x", Engine.Number 1%Z)])].
Proof.
  destruct (Engine.drain Fixture.executeQuery Fixture.defaultCeiling
              Fixture.sumEvaluate 5
              (Engine.processPanelResults (panels Fixture.twinDashboard)
                 (queries Fixture.twinDashboard) true))
    as [[rs g]| |] eqn:Hrun; try (vm_compute in Hrun; discriminate).
  destruct (stream_costs_first_occurrences Fixture.executeQuery
              Fixture.defaultCeiling Fixture.sumEvaluate 5 _ _ rs g Hrun)
    as (rs' & g' & Hrun' & _ & _).
  exists rs', g'. split; [exact Hrun'|].
  vm_compute in Hrun'. by injection Hrun' as <- _.
Defined.

Lemma legacy_stream_witness :
  ∃ items (st : Engine.Store Z) ys,
    Legacy.calculationStream Fixture.executeQuery Fixture.defaultCeiling
      Fixture.sumEvaluate 5 Fixture.legacyDashboard = Done (items, st)
    ∧ Engine.queryCalls st = ["qa"; "qb"; "qc"]
    ∧ items = [("a", Engine.Number 1%Z); ("b", Engine.Number 2%Z)] ++ ys
    ∧ ys.*1 ≡ₚ ["sum"].
Proof.
  destruct (Legacy.calculationStream Fixture.executeQuery
              Fixture.defaultCeiling Fixture.sumEvaluate 5
              Fixture.legacyDashboard)
    as [[items st]| |] eqn:Hrun; try (vm_compute in Hrun; discriminate).
  destruct (legacy_stream_yields_queries_then_widgets Fixture.executeQuery
              Fixture.defaultCeiling Fixture.sumEvaluate 5 _ items st Hrun)
    as (Hcalls & ys & Hitems & Hperm).
  by exists items, st, ys.
Defined.

Lemma legacy_aggregate_witness :
  ∃ results : gmap string (Engine.Value Z),
    Legacy.executeDashboard Fixture.executeQuery Fixture.defaultCeiling
      Fixture.sumEvaluate 5 Fixture.legacyDashboard = Done results
    ∧ ∃ items st,
        Legacy.calculationStream Fixture.executeQuery
          Fixture.defaultCeiling Fixture.sumEvaluate 5
          Fixture.legacyDashboard = Done (items, st)
        ∧ results = Engine.Number <$> Engine.calculatedValues st.
Proof.
  destruct (Legacy.executeDashboard Fixture.executeQuery
              Fixture.defaultCeiling Fixture.sumEvaluate 5
              Fixture.legacyDashboard)
    as [results| |] eqn:Hrun; try (vm_compute in Hrun; discriminate).
  destruct (legacy_aggregate_is_value_table Fixture.executeQuery
              Fixture.defaultCeiling Fixture.sumEvaluate 5 _ results Hrun)
    as (items & st & Hstream & Hvalues & _).
  exists results. split; [done|]. by exists items, st.
Defined.

Lemma legacy_exec_witness :
  ∃ data,
    Legacy.exec Fixture.toString Fixture.memberText Fixture.legacyDashboard {["x" := Some "1"]}
    = Parser.Ok data
    ∧ Legacy.variables data = None.
Proof.
  destruct (Legacy.exec Fixture.toString Fixture.memberText Fixture.legacyDashboard
              {["x" := Some "1"]})
    as [data|] eqn:Hexec; [|vm_compute in Hexec; discriminate].
  exists data. split; [done|].
  by destruct (legacy_exec_drops_declared_variables Fixture.toString Fixture.memberText _ _ _
                 Hexec).
Defined.

Lemma exec_succeeds_witness :
  ∃ data,
    Parser.exec Fixture.toString Fixture.memberText
      Fixture.inheritedTemplate ∅ = Parser.Ok data.
Proof.
  apply (exec_succeeds_iff Fixture.toString Fixture.memberText ∅
           Fixture.inheritedTemplate).
  split.
  - intros name Hname. vm_compute in Hname.
    by apply list_elem_of_singleton in Hname as ->.
  - intros key Hkey. vm_compute in Hkey.
    by apply list_elem_of_singleton in Hkey as ->.
Defined.

Lemma shadowed_method_witness :
  Engine.resolve Fixture.sumEvaluate 1
    [mkMetric "x" "a" ["hasOwnProperty"; "a"]]
    (Engine.assign "hasOwnProperty" 1%Z Fixture.leaves)
  = Threw Engine.notAFunction.
Proof.
  apply (shadowed_method_aborts_resolution Fixture.sumEvaluate 0 []
           (mkMetric "x" "a" ["hasOwnProperty"; "a"])
           (Engine.assign "hasOwnProperty" 1%Z Fixture.leaves));
    [reflexivity|done].
Defined.
